(** * deepsignal2/train.py: the training loop, its checkpoints and early stop

    A shallow embedding of [train] (src/deepsignal2/train.py).  Python floats
    and [np.float64] are IEEE-754 binary64 values, modelled with the
    executable specification of the Standard Library ([SpecFloat]); the
    checkpoint directory is a finite map from absolute paths to nodes, a path
    being the bytes that the kernel gets and a file name being decoded where
    Python hands it to the program as a [str]; the loop bodies are state transformers that return a control signal
    (normal completion, [break], or a raised exception). *)

From Stdlib Require Import ZArith List String Ascii Bool Lia SpecFloat.
From stdpp Require Import base option list gmap strings pretty.

Local Open Scope Z_scope.

(** ** Binary64 arithmetic *)

Module F64.

Definition prec : Z := 53.
Definition emax : Z := 1024.

(** Conversion of a Python [int] to a float (exact below 2^53, otherwise
    rounded to nearest even). *)
Definition of_Z (z : Z) : spec_float := binary_normalize prec emax z 0 false.

Definition add : spec_float -> spec_float -> spec_float := SFadd prec emax.
Definition sub : spec_float -> spec_float -> spec_float := SFsub prec emax.
Definition div : spec_float -> spec_float -> spec_float := SFdiv prec emax.

(** [x > y], [x <= y] of Python: false as soon as one side is NaN. *)
Definition gtb (x y : spec_float) : bool := SFltb y x.
Definition leb (x y : spec_float) : bool := SFleb x y.

Definition is_nan (x : spec_float) : bool :=
  match x with S754_nan => true | _ => false end.

(** The literal [0] of the source (an [int], compared and subtracted as the
    float of the same value). *)
Definition zero : spec_float := S754_zero false.

(** A decimal literal [n / 10^k] denotes the binary64 nearest to that
    quotient; both [n] and [10^k] are exact here, and [div] rounds once. *)
Definition decimal (n : Z) (pow10 : Z) : spec_float := div (of_Z n) (of_Z pow10).

End F64.

(** ** [numpy.mean] over a Python list of floats *)

Module Numpy.
Import F64.

Definition PW_BLOCKSIZE : nat := 128.

(** [r[k] += a[i + k]] for the eight accumulators of the unrolled loop. *)
Fixpoint add_blocks (r : list spec_float) (a : list spec_float) (blocks : nat)
  : list spec_float * list spec_float :=
  match blocks with
  | O => (r, a)
  | S b => add_blocks (zip_with add r (firstn 8 a)) (skipn 8 a) b
  end.

Definition at_ (r : list spec_float) (k : nat) : spec_float := nth k r S754_nan.

(** The summation of [np.add.reduce] on a contiguous float64 array: a plain
    loop below 8 elements, eight accumulators up to [PW_BLOCKSIZE], and a
    split in two halves (the first a multiple of 8) above. *)
Fixpoint pairwise_sum (fuel : nat) (a : list spec_float) : spec_float :=
  let n := length a in
  if (n <? 8)%nat then fold_left add a (S754_zero true)
  else if (n <=? PW_BLOCKSIZE)%nat then
    let '(r, rest) := add_blocks (firstn 8 a) (skipn 8 a) (n / 8 - 1) in
    let res :=
      add (add (add (at_ r 0) (at_ r 1)) (add (at_ r 2) (at_ r 3)))
          (add (add (at_ r 4) (at_ r 5)) (add (at_ r 6) (at_ r 7))) in
    fold_left add rest res
  else
    match fuel with
    | O => S754_nan
    | S fuel' =>
        let n2 := (n / 2 - (n / 2) mod 8)%nat in
        add (pairwise_sum fuel' (firstn n2 a)) (pairwise_sum fuel' (skipn n2 a))
    end.

(** The reduction starts from the identity [0.0] and adds the pairwise sum
    of the whole array. *)
Definition sum (a : list spec_float) : spec_float :=
  add zero (pairwise_sum (length a) a).

(** [np.mean(a)]: the sum divided by the number of items, as floats.  On an
    empty list this is [0.0 / 0], which numpy evaluates to NaN (with a
    warning), not to an exception. *)
Definition mean (a : list spec_float) : spec_float :=
  div (sum a) (of_Z (Z.of_nat (length a))).

(** The additions of a summation, to say which items a sum has taken in:
    the zero that a loop starts from, an item of the array, or the rounded
    sum of two partial sums. *)
Inductive addition : Set :=
| Start (negative : bool)
| Item (x : spec_float)
| Add (s t : addition).

Fixpoint value (t : addition) : spec_float :=
  match t with
  | Start negative => S754_zero negative
  | Item x => x
  | Add s t => add (value s) (value t)
  end.

Fixpoint items (t : addition) : list spec_float :=
  match t with
  | Start _ => []
  | Item x => [x]
  | Add s t => items s ++ items t
  end.

End Numpy.

(** ** Exceptions, results and control signals *)

Inductive exn : Set :=
| ZeroDivisionError
| FileNotFoundError
| FileExistsError
| IsADirectoryError
| NotADirectoryError
| ValueError
| UnicodeEncodeError.

Inductive result (A : Type) : Type :=
| Ok (a : A)
| Raise (e : exn).
Arguments Ok {A} a.
Arguments Raise {A} e.

(** How a statement ends: it falls through, it executes [break], or it
    raises.  Effects made before an exception stay in the state. *)
Inductive signal : Set :=
| Normal
| Break
| Raised (e : exn).

(** [a % b] on Python integers: floored, with the sign of the divisor. *)
Definition py_mod (a b : Z) : result Z :=
  if b =? 0 then Raise ZeroDivisionError else Ok (a mod b).

(** [for x in l: body], as far as the body's signal lets it run.  [for_each]
    reports a [break] to its caller; [py_for] is the complete statement, after
    which a [break] of the body is no longer visible. *)
Fixpoint for_each {S A : Type} (body : A -> S -> S * signal) (l : list A) (st : S)
  : S * signal :=
  match l with
  | [] => (st, Normal)
  | x :: l' =>
      match body x st with
      | (st', Normal) => for_each body l' st'
      | (st', sg) => (st', sg)
      end
  end.

Definition py_for {S A : Type} (body : A -> S -> S * signal) (l : list A) (st : S)
  : S * signal :=
  match for_each body l st with
  | (st', Break) => (st', Normal)
  | r => r
  end.

Definition enumerate {A : Type} (l : list A) : list (nat * A) :=
  combine (seq 0 (length l)) l.

(** ** Strings: the few methods of [str] that the source uses *)

Module Str.

Definition slash : ascii := "/"%char.

(** [s.startswith(p)], returning what follows the prefix. *)
Fixpoint strip_prefix (p s : string) : option string :=
  match p, s with
  | EmptyString, _ => Some s
  | String a p', String b s' => if Ascii.eqb a b then strip_prefix p' s' else None
  | String _ _, EmptyString => None
  end.

Definition startswith (s p : string) : bool :=
  match strip_prefix p s with Some _ => true | None => false end.

(** [s.rstrip(c)] for a single character [c]. *)
Fixpoint rstrip (c : ascii) (s : string) : string :=
  match s with
  | EmptyString => EmptyString
  | String a s' =>
      match rstrip c s' with
      | EmptyString => if Ascii.eqb a c then EmptyString else String a EmptyString
      | r => String a r
      end
  end.

Fixpoint endswith_char (s : string) (c : ascii) : bool :=
  match s with
  | EmptyString => false
  | String a EmptyString => Ascii.eqb a c
  | String _ s' => endswith_char s' c
  end.

(** [s.split(sep)] for a single character [sep]: never empty. *)
Fixpoint split (sep : ascii) (s : string) : list string :=
  match s with
  | EmptyString => [EmptyString]
  | String c s' =>
      if Ascii.eqb c sep then EmptyString :: split sep s'
      else match split sep s' with
           | comp :: comps => String c comp :: comps
           | [] => [String c EmptyString]
           end
  end.

Fixpoint contains_char (c : ascii) (s : string) : bool :=
  match s with
  | EmptyString => false
  | String a s' => Ascii.eqb a c || contains_char c s'
  end.

(** The ten digits of ASCII. *)
Definition is_ascii_digit (c : ascii) : bool :=
  let n := nat_of_ascii c in ((48 <=? n) && (n <=? 57))%nat.

End Str.

(** ** The characters of a [str], and the names of files as [str] *)

Module Unicode.
Local Open Scope N_scope.

(** The code points that [str.isdecimal] accepts, which are those that [\d]
    matches in a [str] pattern: the characters of general category Nd, here
    in the Unicode database of CPython 3.11 (Unicode 14.0), as ranges.  The
    first range holds the ASCII digits; every later version of the database
    has these ranges and more. *)
Definition decimal_ranges : list (N * N) :=
  [(48, 57); (1632, 1641); (1776, 1785); (1984, 1993); (2406, 2415);
   (2534, 2543); (2662, 2671); (2790, 2799); (2918, 2927); (3046, 3055);
   (3174, 3183); (3302, 3311); (3430, 3439); (3558, 3567); (3664, 3673);
   (3792, 3801); (3872, 3881); (4160, 4169); (4240, 4249); (6112, 6121);
   (6160, 6169); (6470, 6479); (6608, 6617); (6784, 6793); (6800, 6809);
   (6992, 7001); (7088, 7097); (7232, 7241); (7248, 7257); (42528, 42537);
   (43216, 43225); (43264, 43273); (43472, 43481); (43504, 43513);
   (43600, 43609); (44016, 44025); (65296, 65305); (66720, 66729);
   (68912, 68921); (69734, 69743); (69872, 69881); (69942, 69951);
   (70096, 70105); (70384, 70393); (70736, 70745); (70864, 70873);
   (71248, 71257); (71360, 71369); (71472, 71481); (71904, 71913);
   (72016, 72025); (72784, 72793); (73040, 73049); (73120, 73129);
   (92768, 92777); (92864, 92873); (93008, 93017); (120782, 120831);
   (123200, 123209); (123632, 123641); (125264, 125273); (130032, 130041)].

Definition isdecimal (c : N) : bool :=
  existsb (fun r => (fst r <=? c) && (c <=? snd r)) decimal_ranges.

(** A byte as a number, and the characters of a literal of the source (all
    of them ASCII, one byte each). *)
Definition ord (a : ascii) : N := N_of_ascii a.

Fixpoint codes (s : string) : list N :=
  match s with
  | EmptyString => []
  | String a s' => ord a :: codes s'
  end.

(** The bytes of a file name, for names that are not ASCII. *)
Fixpoint bytes (l : list N) : string :=
  match l with
  | [] => EmptyString
  | b :: l' => String (ascii_of_N b) (bytes l')
  end.

(** The well-formed sequences of UTF-8: no overlong form, no surrogate,
    nothing above U+10FFFF. *)
Definition continuation (b : N) : bool := (128 <=? b) && (b <=? 191).

Definition two_bytes (b0 b1 : N) : bool :=
  (194 <=? b0) && (b0 <=? 223) && continuation b1.

Definition three_bytes (b0 b1 b2 : N) : bool :=
  ((b0 =? 224) && (160 <=? b1) && (b1 <=? 191)
   || (225 <=? b0) && (b0 <=? 236) && continuation b1
   || (b0 =? 237) && (128 <=? b1) && (b1 <=? 159)
   || (238 <=? b0) && (b0 <=? 239) && continuation b1)
  && continuation b2.

Definition four_bytes (b0 b1 b2 b3 : N) : bool :=
  ((b0 =? 240) && (144 <=? b1) && (b1 <=? 191)
   || (241 <=? b0) && (b0 <=? 243) && continuation b1
   || (b0 =? 244) && (128 <=? b1) && (b1 <=? 143))
  && continuation b2 && continuation b3.

(** [os.fsdecode], by which [os.listdir] turns the bytes of a name into the
    [str] that the program gets: UTF-8, the file system encoding of Python 3
    on Linux, with the [surrogateescape] handler.  A well-formed sequence
    gives its code point; any other byte [b] (it is 128 or more) gives the
    lone surrogate [U+DC00 + b], and decoding goes on with the byte after
    it. *)
Fixpoint fsdecode (s : string) : list N :=
  match s with
  | EmptyString => []
  | String a0 s1 =>
      let b0 := ord a0 in
      let escaped := (56320 + b0) :: fsdecode s1 in
      if b0 <? 128 then b0 :: fsdecode s1
      else
        match s1 with
        | EmptyString => escaped
        | String a1 s2 =>
            let b1 := ord a1 in
            if two_bytes b0 b1
            then ((b0 - 192) * 64 + (b1 - 128)) :: fsdecode s2
            else
              match s2 with
              | EmptyString => escaped
              | String a2 s3 =>
                  let b2 := ord a2 in
                  if three_bytes b0 b1 b2
                  then ((b0 - 224) * 4096 + (b1 - 128) * 64 + (b2 - 128))
                         :: fsdecode s3
                  else
                    match s3 with
                    | EmptyString => escaped
                    | String a3 s4 =>
                        let b3 := ord a3 in
                        if four_bytes b0 b1 b2 b3
                        then ((b0 - 240) * 262144 + (b1 - 128) * 4096
                              + (b2 - 128) * 64 + (b3 - 128)) :: fsdecode s4
                        else escaped
                    end
              end
        end
  end.

(** [os.fsencode], by which a [str] handed to [os.remove] becomes the bytes
    that the kernel gets: UTF-8 again, a lone surrogate [U+DC80] to [U+DCFF]
    giving back the byte it stands for.  Any other surrogate cannot be
    encoded ([UnicodeEncodeError], here [None]). *)
Definition chr (b : N) : ascii := ascii_of_N b.

Definition encode_char (c : N) : option string :=
  if c <? 128 then Some (String (chr c) EmptyString)
  else if c <? 2048 then
    Some (String (chr (192 + c / 64)) (String (chr (128 + c mod 64)) EmptyString))
  else if (55296 <=? c) && (c <=? 57343) then
    if (56448 <=? c) && (c <=? 56575)
    then Some (String (chr (c - 56320)) EmptyString) else None
  else if c <? 65536 then
    Some (String (chr (224 + c / 4096))
            (String (chr (128 + (c / 64) mod 64))
               (String (chr (128 + c mod 64)) EmptyString)))
  else if c <? 1114112 then
    Some (String (chr (240 + c / 262144))
            (String (chr (128 + (c / 4096) mod 64))
               (String (chr (128 + (c / 64) mod 64))
                  (String (chr (128 + c mod 64)) EmptyString))))
  else None.

Fixpoint fsencode (l : list N) : option string :=
  match l with
  | [] => Some EmptyString
  | c :: l' =>
      match encode_char c, fsencode l' with
      | Some a, Some b => Some (a +:+ b)
      | _, _ => None
      end
  end.

End Unicode.

(** ** Regular expressions: [re.compile(p).match(s)] on a [str] *)

Module Regex.

Inductive regex : Set :=
| Void
| Eps
| Chr (c : N)
| Digit
| Cat (r1 r2 : regex)
| Alt (r1 r2 : regex)
| Star (r : regex).

Fixpoint nullable (r : regex) : bool :=
  match r with
  | Void => false
  | Eps => true
  | Chr _ => false
  | Digit => false
  | Cat r1 r2 => nullable r1 && nullable r2
  | Alt r1 r2 => nullable r1 || nullable r2
  | Star _ => true
  end.

(** Brzozowski derivative: the expression for what may follow the character
    [c]; [\d] is followed by the empty word when [c] is a decimal digit of
    any script. *)
Fixpoint deriv (c : N) (r : regex) : regex :=
  match r with
  | Void => Void
  | Eps => Void
  | Chr a => if (a =? c)%N then Eps else Void
  | Digit => if Unicode.isdecimal c then Eps else Void
  | Cat r1 r2 =>
      if nullable r1 then Alt (Cat (deriv c r1) r2) (deriv c r2)
      else Cat (deriv c r1) r2
  | Alt r1 r2 => Alt (deriv c r1) (deriv c r2)
  | Star r1 => Cat (deriv c r1) (Star r1)
  end.

(** [Pattern.match]: the pattern matches at the start of the string, with
    anything after it, so some prefix of [s] is a word of [r]. *)
Fixpoint re_match (r : regex) (s : list N) {struct s} : bool :=
  nullable r ||
  match s with
  | [] => false
  | c :: s' => re_match (deriv c r) s'
  end.

(** The expression of a run of ordinary characters of the pattern. *)
Fixpoint lit (s : string) : regex :=
  match s with
  | EmptyString => Eps
  | String c s' => Cat (Chr (Unicode.ord c)) (lit s')
  end.

Definition Plus (r : regex) : regex := Cat r (Star r).

(** The words of an expression, for the statements about [re_match]. *)
Inductive lang : regex -> list N -> Prop :=
| lang_eps : lang Eps []
| lang_chr c : lang (Chr c) [c]
| lang_digit c : Unicode.isdecimal c = true -> lang Digit [c]
| lang_cat r1 r2 s1 s2 : lang r1 s1 -> lang r2 s2 -> lang (Cat r1 r2) (s1 ++ s2)
| lang_alt_l r1 r2 s : lang r1 s -> lang (Alt r1 r2) s
| lang_alt_r r1 r2 s : lang r2 s -> lang (Alt r1 r2) s
| lang_star_nil r : lang (Star r) []
| lang_star_cons r s1 s2 : lang r s1 -> lang (Star r) s2 -> lang (Star r) (s1 ++ s2).

End Regex.

(** ** The file system under the model directory *)

Module Posix.
Import Str.

(** [posixpath.normpath] and [posixpath.abspath]. *)
Definition norm_step (initial_slashes : nat) (rev_comps : list string) (comp : string)
  : list string :=
  if String.eqb comp "" || String.eqb comp "." then rev_comps
  else if negb (String.eqb comp "..")
          || ((initial_slashes =? 0)%nat && match rev_comps with [] => true | _ => false end)
          || match rev_comps with last :: _ => String.eqb last ".." | [] => false end
       then comp :: rev_comps
       else match rev_comps with _ :: r => r | [] => [] end.

Definition normpath (path : string) : string :=
  if String.eqb path "" then "."
  else
    let initial_slashes :=
      if startswith path "/" then
        if startswith path "//" && negb (startswith path "///") then 2%nat else 1%nat
      else 0%nat in
    let comps := rev (fold_left (norm_step initial_slashes) (split slash path) []) in
    let path' :=
      String.concat "" (repeat "/" initial_slashes) +:+ String.concat "/" comps in
    if String.eqb path' "" then "." else path'.

Definition join (a b : string) : string :=
  if startswith b "/" then b
  else if String.eqb a "" || endswith_char a slash then a +:+ b
  else a +:+ "/" +:+ b.

Definition abspath (cwd path : string) : string :=
  normpath (if startswith path "/" then path else join cwd path).

Section WithContent.
Context {C : Type}.

Inductive node : Type :=
| Dir
| File (c : C).

(** A file system: the nodes by absolute path, each under one key, the path
    with single slashes. *)
Abbreviation fs := (gmap string node).

(** The key of a path as the program spells it.  The kernel takes a run of
    slashes for one slash, also at the start of a path, where [normpath]
    keeps two of them: [//m] is the directory [/m].  The paths of [train]
    come from [abspath], from the names of a listing and from the name of a
    checkpoint: they have no [.] or [..] component and no final slash. *)
Fixpoint resolve (p : string) : string :=
  match p with
  | EmptyString => EmptyString
  | String c p' =>
      if Ascii.eqb c slash then
        match p' with
        | String c' _ => if Ascii.eqb c' slash then resolve p' else String c (resolve p')
        | EmptyString => String c EmptyString
        end
      else String c (resolve p')
  end.

(** The directory part of a normalised path. *)
Fixpoint parent_aux (acc : string) (last : option string) (s : string) : option string :=
  match s with
  | EmptyString => last
  | String c s' =>
      parent_aux (acc +:+ String c EmptyString)
                 (if Ascii.eqb c slash then Some acc else last) s'
  end.

Definition parent (p : string) : string :=
  match parent_aux "" None p with
  | Some EmptyString => "/"
  | Some d => d
  | None => ""
  end.

(** Every proper ancestor of a path, the root first. *)
Fixpoint ancestors_aux (pre : string) (s : string) : list string :=
  match s with
  | EmptyString => []
  | String c s' =>
      (if Ascii.eqb c slash
       then [match pre with EmptyString => "/" | _ => pre end] else [])
      ++ ancestors_aux (pre +:+ String c EmptyString) s'
  end.

Definition ancestors (p : string) : list string := ancestors_aux "" p.

(** The name [n] when [p] is the entry [n] of the directory [d]. *)
Definition child_of (d p : string) : option string :=
  match strip_prefix (if String.eqb d "/" then "/" else d +:+ "/") p with
  | Some n =>
      if String.eqb n "" || contains_char slash n then None else Some n
  | None => None
  end.

(** [os.path.exists]. *)
Definition exists_ (m : fs) (p : string) : bool :=
  match m !! resolve p with Some _ => true | None => false end.

(** [os.listdir], before the names are decoded: the names of the entries,
    in the order of the map. *)
Definition listdir (m : fs) (d : string) : result (list string) :=
  match m !! resolve d with
  | None => Raise FileNotFoundError
  | Some (File _) => Raise NotADirectoryError
  | Some Dir => Ok (omap (fun kv => child_of (resolve d) (fst kv)) (map_to_list m))
  end.

(** [os.remove]: unlinks a file, refuses a directory. *)
Definition remove (m : fs) (p : string) : result fs :=
  match m !! resolve p with
  | None => Raise FileNotFoundError
  | Some Dir => Raise IsADirectoryError
  | Some (File _) => Ok (delete (resolve p) m)
  end.

Definition is_file (m : fs) (p : string) : bool :=
  match m !! p with Some (File _) => true | _ => false end.

(** [os.makedirs]: creates the directory and its missing ancestors. *)
Definition makedirs (m : fs) (p : string) : result fs :=
  let q := resolve p in
  if String.eqb q "" then Raise FileNotFoundError
  else if exists_ m p then Raise FileExistsError
  else if existsb (is_file m) (ancestors q) then Raise NotADirectoryError
  else Ok (foldr (fun a m' => match m' !! a with
                              | None => <[a := Dir]> m'
                              | Some _ => m'
                              end)
                 (<[q := Dir]> m) (ancestors q)).

(** Opening a path for writing and storing [c] there, as [torch.save]
    does: the directory must exist, the path must not be a directory. *)
Definition write_file (m : fs) (p : string) (c : C) : result fs :=
  let q := resolve p in
  match m !! q with
  | Some Dir => Raise IsADirectoryError
  | _ =>
      match m !! parent q with
      | Some Dir => Ok (<[q := File c]> m)
      | Some (File _) => Raise NotADirectoryError
      | None => Raise FileNotFoundError
      end
  end.

End WithContent.
Arguments node : clear implicits.

End Posix.

(** ** The collaborators of [train] *)

(** The per-batch scores of a validation batch (lines 109-124). *)
Record scores : Set := Scores {
  loss : spec_float;
  accuracy : spec_float;
  precision : spec_float;
  recall : spec_float
}.

(** What [train] uses and this file does not define: the classifier with its
    optimizer and scheduler, the records of the two files, and the working
    directory of the process.  A loader is iterated anew for every pass, and
    [shuffle=True] makes each pass draw the records in an order of its own:
    [train_order e] is the order of the pass of epoch [e], [valid_order e i]
    the one of the validation round at step [i] of epoch [e]. *)
Class Externals : Type := {
  params : Type;
  optim : Type;
  sample : Type;
  batch : Type;
  EncoderClassifier : params;
  Adam : optim;
  (** [SignalFeaData(args.train_file)], [SignalFeaData(args.valid_file)] *)
  train_dataset : list sample;
  valid_dataset : list sample;
  (** [args.batch_size] *)
  batch_size : Z;
  train_order : nat -> list sample;
  valid_order : nat -> nat -> list sample;
  train_order_shuffles : forall e, Permutation (train_order e) train_dataset;
  valid_order_shuffles : forall e i, Permutation (valid_order e i) valid_dataset;
  (** the samples of a batch put together (the default [collate_fn]) *)
  collate : list sample -> batch;
  (** forward pass, loss, [zero_grad], [backward], [optimizer.step()] *)
  optimizer_step : params -> optim -> batch -> params * optim;
  (** [scheduler.step()] *)
  scheduler_step : optim -> optim;
  (** forward pass in evaluation mode and the sklearn metrics of one batch *)
  evaluate : params -> batch -> scores;
  getcwd : string
}.

(** ** The loaders: lines 32-40 *)

(** The [BatchSampler] of a loader: it fills a batch with what the sampler
    draws, yields it when it holds [batch_size] samples, and yields what is
    left at the end as a last, shorter batch ([drop_last=False]). *)
Fixpoint batch_sampler {A : Type} (size : nat) (current sampler : list A)
  : list (list A) :=
  match sampler with
  | [] => if (0 <? length current)%nat then [current] else []
  | idx :: rest =>
      let current' := current ++ [idx] in
      if (length current' =? size)%nat
      then current' :: batch_sampler size [] rest
      else batch_sampler size current' rest
  end.

Section Loaders.
Context `{E : Externals}.

(** [DataLoader(dataset=..., batch_size=..., shuffle=True)]: the
    [RandomSampler] of a shuffling loader refuses a dataset without records,
    and the [BatchSampler] a batch size that is not positive. *)
Definition DataLoader (dataset : list sample) : result unit :=
  if (length dataset =? 0)%nat then Raise ValueError
  else if batch_size <=? 0 then Raise ValueError
  else Ok tt.

(** One pass over a loader whose sampler draws [order]. *)
Definition batches (order : list sample) : list batch :=
  map collate (batch_sampler (Z.to_nat batch_size) [] order).

Definition train_loader (e : nat) : list batch := batches (train_order e).
Definition valid_loader (e i : nat) : list batch := batches (valid_order e i).

End Loaders.

Record Args : Set := {
  args_model_dir : string;
  args_max_epoch_num : Z;
  args_min_epoch_num : Z;
  args_step_interval : Z
}.

Inductive mode_flag : Set := Training | Evaluation.

(** The pattern of line 43, [epoch\d+\.ckpt*]. *)
Definition model_regex : Regex.regex :=
  Regex.Cat (Regex.lit "epoch")
    (Regex.Cat (Regex.Plus Regex.Digit)
       (Regex.Cat (Regex.Chr (Unicode.ord "."))
          (Regex.Cat (Regex.lit "ckp") (Regex.Star (Regex.Chr (Unicode.ord "t")))))).

(** [model_regex.match(mfile)] on the name of an entry of a directory: the
    kernel has the name in bytes, and the program gets it from [os.listdir]
    as a [str]. *)
Definition stale_name (mfile : string) : bool :=
  Regex.re_match model_regex (Unicode.fsdecode mfile).

(** What follows the leading digits of a string. *)
Fixpoint drop_digits (s : string) : string :=
  match s with
  | EmptyString => EmptyString
  | String c s' => if Str.is_ascii_digit c then drop_digits s' else s
  end.

(** The pattern as the specification words it, [epoch<digits>.ckpt*] with a
    trailing wildcard: [epoch], one or more digits, [.ckpt], then anything.
    It is compared with [model_regex], the pattern of the code. *)
Definition spec_checkpoint_name (n : string) : bool :=
  match Str.strip_prefix "epoch" n with
  | Some (String c r) => Str.is_ascii_digit c && Str.startswith (drop_digits r) ".ckpt"
  | _ => false
  end.

Section Train.
Context `{E : Externals}.
Variable args : Args.

(** What a checkpoint file holds: the [state_dict] that was saved, or
    anything else for a file that was there before the run. *)
Inductive content : Type :=
| Stale
| StateDict (p : params).

(** The summary of one validation round: the four means. *)
Record summary : Set := Summary {
  mean_loss : spec_float;
  mean_accuracy : spec_float;
  mean_precision : spec_float;
  mean_recall : spec_float
}.

(** The calls that leave [train]: into the classifier, the optimizer, the
    scheduler, [torch.save] and the progress lines of the loop. *)
Inductive call : Type :=
| model_train
| optimizer_step_call
| scheduler_step_call
| model_eval
| model_forward
| torch_save_call (path : string)
| print_progress (epoch step : nat) (s : summary) (curr_epoch_best : spec_float)
| print_early_stop (best : spec_float).

(** The variables of [train] that the loop reads and writes, the file
    system, and the calls made so far (latest first). *)
Record state : Type := State {
  fs : gmap string (Posix.node content);
  model_dir : string;
  model : params;
  mode : mode_flag;
  optimizer : optim;
  curr_best_accuracy : spec_float;
  curr_best_accuracy_epoch : spec_float;
  trace : list call
}.

Definition set_fs (m : gmap string (Posix.node content)) (st : state) : state :=
  State m (model_dir st) (model st) (mode st) (optimizer st)
        (curr_best_accuracy st) (curr_best_accuracy_epoch st) (trace st).
Definition set_model_dir (d : string) (st : state) : state :=
  State (fs st) d (model st) (mode st) (optimizer st)
        (curr_best_accuracy st) (curr_best_accuracy_epoch st) (trace st).
Definition set_model (p : params) (o : optim) (st : state) : state :=
  State (fs st) (model_dir st) p (mode st) o
        (curr_best_accuracy st) (curr_best_accuracy_epoch st) (trace st).
Definition set_mode (f : mode_flag) (st : state) : state :=
  State (fs st) (model_dir st) (model st) f (optimizer st)
        (curr_best_accuracy st) (curr_best_accuracy_epoch st) (trace st).
Definition set_curr_best_accuracy (x : spec_float) (st : state) : state :=
  State (fs st) (model_dir st) (model st) (mode st) (optimizer st)
        x (curr_best_accuracy_epoch st) (trace st).
Definition set_curr_best_accuracy_epoch (x : spec_float) (st : state) : state :=
  State (fs st) (model_dir st) (model st) (mode st) (optimizer st)
        (curr_best_accuracy st) x (trace st).
Definition emit (c : call) (st : state) : state :=
  State (fs st) (model_dir st) (model st) (mode st) (optimizer st)
        (curr_best_accuracy st) (curr_best_accuracy_epoch st) (c :: trace st).

(** *** Start-up: lines 42-52 *)

(** Lines 50-51, the body of the clean-up loop.  [mfile] is the [str] that
    [os.listdir] gave: the pattern is tried on it, and [os.remove] gets the
    path in bytes, the directory followed by [os.fsencode] of the name. *)
Definition cleanup_body (mfile : list N) (st : state) : state * signal :=
  if Regex.re_match model_regex mfile then
    match Unicode.fsencode mfile with
    | Some name =>
        match Posix.remove (fs st) (model_dir st +:+ "/" +:+ name) with
        | Ok m => (set_fs m st, Normal)
        | Raise e => (st, Raised e)
        end
    | None => (st, Raised UnicodeEncodeError)
    end
  else (st, Normal).

Definition startup (st : state) : state * signal :=
  if negb (String.eqb (model_dir st) "/") then
    let st1 :=
      set_model_dir (Str.rstrip Str.slash (Posix.abspath getcwd (model_dir st))) st in
    let '(st2, sg) :=
      if negb (Posix.exists_ (fs st1) (model_dir st1)) then
        match Posix.makedirs (fs st1) (model_dir st1) with
        | Ok m => (set_fs m st1, Normal)
        | Raise e => (st1, Raised e)
        end
      else
        match Posix.listdir (fs st1) (model_dir st1) with
        | Ok names => py_for cleanup_body (map Unicode.fsdecode names) st1
        | Raise e => (st1, Raised e)
        end in
    match sg with
    | Normal => (set_model_dir (model_dir st2 +:+ "/") st2, Normal)
    | _ => (st2, sg)
    end
  else (st, Normal).

(** *** A validation round: lines 97-139 *)

(** The file name of line 129. *)
Definition checkpoint_path (dir : string) (epoch : nat) : string :=
  dir +:+ "epoch" +:+ pretty epoch +:+ ".ckpt".

Definition torch_save (path : string) (st : state) : state * signal :=
  let st1 := emit (torch_save_call path) st in
  match Posix.write_file (fs st1) path (StateDict (model st1)) with
  | Ok m => (set_fs m st1, Normal)
  | Raise e => (st1, Raised e)
  end.

(** Lines 126-129. *)
Definition checkpoint (epoch : nat) (mean_accu : spec_float) (st : state)
  : state * signal :=
  if F64.gtb mean_accu (curr_best_accuracy_epoch st) then
    let st1 := set_curr_best_accuracy_epoch mean_accu st in
    if F64.gtb (curr_best_accuracy_epoch st1)
               (F64.sub (curr_best_accuracy st1) (F64.decimal 1 1000))
    then torch_save (checkpoint_path (model_dir st1) epoch) st1
    else (st1, Normal)
  else (st, Normal).

(** Lines 99-124: one pass over the validation loader, one forward call
    and one entry in each of the four lists per batch. *)
Definition validation_pass (vbatches : list batch) (st : state)
  : list scores * state :=
  (map (evaluate (model st)) vbatches,
   fold_left (fun s _ => emit model_forward s) vbatches st).

Definition summarize (vs : list scores) : summary :=
  Summary (Numpy.mean (map loss vs)) (Numpy.mean (map accuracy vs))
          (Numpy.mean (map precision vs)) (Numpy.mean (map recall vs)).

Definition validation_round (epoch i : nat) (st : state) : state * signal :=
  let st1 := emit model_eval (set_mode Evaluation st) in
  let '(vs, st2) := validation_pass (valid_loader epoch i) st1 in
  let vaccus := map accuracy vs in
  match checkpoint epoch (Numpy.mean vaccus) st2 with
  | (st3, Normal) =>
      (emit (print_progress (epoch + 1) (i + 1) (summarize vs)
                            (curr_best_accuracy_epoch st3)) st3, Normal)
  | r => r
  end.

(** *** A training step: lines 76-139 *)

(** Lines 85-94. *)
Definition update (b : batch) (st : state) : state :=
  let st1 := emit model_train (set_mode Training st) in
  let '(p, o) := optimizer_step (model st1) (optimizer st1) b in
  emit optimizer_step_call (set_model p o st1).

Definition train_step (epoch : nat) (ib : nat * batch) (st : state) : state * signal :=
  let '(i, b) := ib in
  let st1 := update b st in
  match py_mod (Z.of_nat i + 1) (args_step_interval args) with
  | Raise e => (st1, Raised e)
  | Ok r => if r =? 0 then validation_round epoch i st1 else (st1, Normal)
  end.

(** *** The end of an epoch: lines 140-146 *)

Definition early_stopping (epoch : nat) (st : state) : state * signal :=
  if F64.gtb (curr_best_accuracy_epoch st) (curr_best_accuracy st) then
    (set_curr_best_accuracy (curr_best_accuracy_epoch st) st, Normal)
  else if args_min_epoch_num args - 1 <=? Z.of_nat epoch then
    (emit (print_early_stop (curr_best_accuracy st)) st, Break)
  else (st, Normal).

(** *** An epoch and the run: lines 72-146 *)

Definition training_pass (epoch : nat) (st : state) : state * signal :=
  py_for (train_step epoch) (enumerate (train_loader epoch)) st.

Definition epoch_body (epoch : nat) (st : state) : state * signal :=
  let st1 := set_curr_best_accuracy_epoch F64.zero st in
  match training_pass epoch st1 with
  | (st2, Normal) =>
      let st3 :=
        emit scheduler_step_call
             (set_model (model st2) (scheduler_step (optimizer st2)) st2) in
      early_stopping epoch st3
  | r => r
  end.

(** [range(args.max_epoch_num)]. *)
Definition py_range (n : Z) : list nat := seq 0 (Z.to_nat n).

Definition epochs (st : state) : state * signal :=
  for_each epoch_body (py_range (args_max_epoch_num args))
           (set_curr_best_accuracy F64.zero st).

(** The state in which [train] starts on a given file system, once the two
    loaders are built. *)
Definition initial (m : gmap string (Posix.node content)) : state :=
  State m (args_model_dir args) EncoderClassifier Training Adam
        F64.zero F64.zero [].

(** How a run ends. *)
Inductive outcome : Set :=
| Completed
| StoppedEarly
| Failed (e : exn).

(** Lines 42-149: [train] in a world where both loaders exist. *)
Definition train (m : gmap string (Posix.node content)) : state * outcome :=
  match startup (initial m) with
  | (st1, Normal) =>
      match epochs st1 with
      | (st2, Normal) => (st2, Completed)
      | (st2, Break) => (st2, StoppedEarly)
      | (st2, Raised e) => (st2, Failed e)
      end
  | (st1, Break) => (st1, Completed)
  | (st1, Raised e) => (st1, Failed e)
  end.

(** Lines 32-149: the two loaders are built first, and a loader that cannot
    be built ends [train] before anything else is done. *)
Definition load_and_train (m : gmap string (Posix.node content)) : state * outcome :=
  match DataLoader train_dataset with
  | Raise e => (initial m, Failed e)
  | Ok _ =>
      match DataLoader valid_dataset with
      | Raise e => (initial m, Failed e)
      | Ok _ => train m
      end
  end.

End Train.

(** ** Definitions used to state the properties *)

(** The comparison of two finite floats of the same sign, as [SFcompare]
    computes it: exponents first, then mantissas. *)
Definition lexc (e1 e2 : Z) (m1 m2 : positive) : comparison :=
  match e1 ?= e2 with
  | Lt => Lt
  | Gt => Gt
  | Eq => Pos.compare_cont Eq m1 m2
  end.

Inductive lexc_cases (e1 e2 : Z) (m1 m2 : positive) : comparison -> Prop :=
| lexc_lt : e1 < e2 \/ (e1 = e2 /\ (m1 < m2)%positive) -> lexc_cases e1 e2 m1 m2 Lt
| lexc_eq : e1 = e2 /\ m1 = m2 -> lexc_cases e1 e2 m1 m2 Eq
| lexc_gt : e2 < e1 \/ (e1 = e2 /\ (m2 < m1)%positive) -> lexc_cases e1 e2 m1 m2 Gt.

Fixpoint all_digits (s : string) : bool :=
  match s with
  | EmptyString => true
  | String c s' => Str.is_ascii_digit c && all_digits s'
  end.


Section Observations.
Context `{E : Externals}.
Variable args : Args.

Definition is_model_eval (c : call) : bool :=
  match c with model_eval => true | _ => false end.
Definition is_model_forward (c : call) : bool :=
  match c with model_forward => true | _ => false end.
Definition is_optimizer_step (c : call) : bool :=
  match c with optimizer_step_call => true | _ => false end.
Definition is_torch_save (c : call) : bool :=
  match c with torch_save_call _ => true | _ => false end.

(** How many calls of a kind a state has seen. *)
Definition calls (kind : call -> bool) (st : state) : nat :=
  length (List.filter kind (trace st)).

(** The state when the first [n] epochs of the run are over (or when the
    loop has left earlier). *)
Definition after_epochs (n : nat) (st : state) : state :=
  fst (for_each (epoch_body args)
                (firstn n (py_range (args_max_epoch_num args)))
                (set_curr_best_accuracy F64.zero st)).

(** The state when the first [k] training steps of an epoch are over. *)
Definition after_steps (epoch k : nat) (st : state) : state :=
  fst (for_each (train_step args epoch)
                (firstn k (enumerate (train_loader epoch)))
                (set_curr_best_accuracy_epoch F64.zero st)).

(** How the first [k] training steps of an epoch end: [Normal] when the pass
    is still under way after them. *)
Definition steps_signal (epoch k : nat) (st : state) : signal :=
  snd (for_each (train_step args epoch)
                (firstn k (enumerate (train_loader epoch)))
                (set_curr_best_accuracy_epoch F64.zero st)).

(** Neither accuracy variable holds a NaN. *)
Definition no_nan (st : state) : Prop :=
  F64.is_nan (curr_best_accuracy st) = false /\
  F64.is_nan (curr_best_accuracy_epoch st) = false.

(** Every entry of [d] that the pattern matches is a regular file. *)
Definition matching_entries_are_files
           (m : gmap string (Posix.node content)) (d : string) : bool :=
  forallb (fun kv =>
             match snd kv, Posix.child_of d (fst kv) with
             | Posix.Dir, Some n => negb (stale_name n)
             | _, _ => true
             end) (map_to_list m).


(** What a validation round leaves of the state it was given. *)
Inductive round_result (epoch i : nat) (st : state) : state * signal -> Prop :=
| round_done m cbe pr sv sg :
    sg <> Break ->
    (cbe = curr_best_accuracy_epoch st \/
     F64.gtb cbe (curr_best_accuracy_epoch st) = true) ->
    (pr = [] \/ exists s b, pr = [print_progress (epoch + 1) (i + 1) s b]) ->
    (sv = [] \/ sv = [torch_save_call (checkpoint_path (model_dir st) epoch)]) ->
    round_result epoch i st
      (State m (model_dir st) (model st) Evaluation (optimizer st)
             (curr_best_accuracy st) cbe
             (pr ++ sv ++ (repeat model_forward (length (valid_loader epoch i))
                             ++ [model_eval]) ++ trace st), sg).

(** What a training step leaves of the state it was given. *)
Inductive step_result (epoch : nat) (st : state) : state * signal -> Prop :=
| step_done m p md o cbe extra sg :
    sg <> Break ->
    (cbe = curr_best_accuracy_epoch st \/
     F64.gtb cbe (curr_best_accuracy_epoch st) = true) ->
    (forall path, In (torch_save_call path) extra ->
                  path = checkpoint_path (model_dir st) epoch) ->
    step_result epoch st
      (State m (model_dir st) p md o (curr_best_accuracy st) cbe
             (extra ++ trace st), sg).

End Observations.

(** ** A small instance to run the definitions on *)

Module Toy.

Definition acc (n : Z) : scores :=
  Scores F64.zero (F64.decimal n 100) F64.zero F64.zero.

(** Records that carry their own scores, one record per batch, drawn in the
    order of the file; the parameters count the updates. *)
Definition externals (train_records valid_records : list scores) : Externals :=
  {| params := nat;
     optim := nat;
     sample := scores;
     batch := scores;
     EncoderClassifier := 0%nat;
     Adam := 0%nat;
     train_dataset := train_records;
     valid_dataset := valid_records;
     batch_size := 1;
     train_order := fun _ => train_records;
     valid_order := fun _ _ => valid_records;
     train_order_shuffles := fun _ => Permutation_refl train_records;
     valid_order_shuffles := fun _ _ => Permutation_refl valid_records;
     collate := fun l => hd (acc 0) l;
     optimizer_step := fun p o _ => (S p, S o);
     scheduler_step := fun o => o;
     evaluate := fun _ b => b;
     getcwd := "/work" |}.

(** Two training batches per epoch, validation after each of them. *)
Definition two_steps : list scores := [acc 0; acc 0].
Definition steady : list scores := [acc 90; acc 70].

Definition args (dir : string) : Args :=
  {| args_model_dir := dir;
     args_max_epoch_num := 3;
     args_min_epoch_num := 2;
     args_step_interval := 1 |}.

(** A model directory with two stale checkpoints and a note. *)
Definition stale_dir (X : Externals) : gmap string (Posix.node (@content X)) :=
  <["/m/epoch3.ckpt" := Posix.File Stale]>
    (<["/m/epoch10.ckpt" := Posix.File Stale]>
       (<["/m/notes.txt" := Posix.File Stale]>
          (<["/m" := Posix.Dir]> (<["/" := Posix.Dir]> ∅)))).


(** The two worlds of the runs below: a validation mean of 0.8 in every
    round, and a validation file without records. *)
Definition X : Externals := externals two_steps steady.
Definition X0 : Externals := externals two_steps [].

End Toy.

(** ** Definitions for the properties of start-up and of whole runs *)

Section RunObservations.
Context `{E : Externals}.
Variable args : Args.

Definition is_scheduler_step (c : call) : bool :=
  match c with scheduler_step_call => true | _ => false end.

(** The directory that start-up works on when [model_dir] is not ["/"]
    (line 45). *)
Definition normalized_model_dir : string :=
  Str.rstrip Str.slash (Posix.abspath getcwd (args_model_dir args)).


(** The file name of the checkpoint of an epoch (line 129). *)
Definition checkpoint_name (epoch : nat) : string :=
  "epoch" +:+ pretty epoch +:+ ".ckpt".

(** The larger of two accuracies, as lines 141-142 choose it. *)
Definition best_of (epoch_best run_best : spec_float) : spec_float :=
  if F64.gtb epoch_best run_best then epoch_best else run_best.

(** The paths that differ from those of [st0] are checkpoints of epochs
    below [n], and hold state dicts. *)
Definition only_checkpoints (st0 : state) (n : nat) (s : state) : Prop :=
  model_dir s = model_dir st0 /\
  forall p, fs s !! p = fs st0 !! p \/
            exists epoch θ, (epoch < n)%nat /\
              p = Posix.resolve (model_dir st0 +:+ checkpoint_name epoch) /\
              fs s !! p = Some (Posix.File (StateDict θ)).

(** What a training pass without validation round keeps. *)
Definition quiet (st s : state) : Prop :=
  fs s = fs st /\ model_dir s = model_dir st /\
  curr_best_accuracy s = curr_best_accuracy st /\
  curr_best_accuracy_epoch s = curr_best_accuracy_epoch st /\
  calls is_model_eval s = calls is_model_eval st /\
  calls is_torch_save s = calls is_torch_save st /\
  calls is_scheduler_step s = calls is_scheduler_step st.

End RunObservations.

(** ** Further inputs to run the definitions on *)

Module Cases.



(** A model directory with a stale checkpoint whose epoch is written with
    the Arabic-Indic digit three (U+0663, the bytes D9 A3), and a note. *)
Definition arabic_epoch : string :=
  "epoch" +:+ Unicode.bytes [217; 163]%N +:+ ".ckpt".

Definition unicode_dir (X : Externals) : gmap string (Posix.node (@content X)) :=
  <["/m/" +:+ arabic_epoch := Posix.File Stale]>
    (<["/m/notes.txt" := Posix.File Stale]>
       (<["/m" := Posix.Dir]> (<["/" := Posix.Dir]> ∅))).

(** The same, with a directory under that name. *)
Definition unicode_subdir (X : Externals) : gmap string (Posix.node (@content X)) :=
  <["/m/" +:+ arabic_epoch := Posix.Dir]>
    (<["/m/notes.txt" := Posix.File Stale]>
       (<["/m" := Posix.Dir]> (<["/" := Posix.Dir]> ∅))).

(** Only the root exists. *)
Definition bare_root (X : Externals) : gmap string (Posix.node (@content X)) :=
  <["/" := Posix.Dir]> ∅.

Definition args_with (dir : string) (max_epochs min_epochs interval : Z) : Args :=
  {| args_model_dir := dir;
     args_max_epoch_num := max_epochs;
     args_min_epoch_num := min_epochs;
     args_step_interval := interval |}.

(** Five training batches per epoch, one validation batch. *)
Definition five_steps : list scores :=
  [Toy.acc 0; Toy.acc 0; Toy.acc 0; Toy.acc 0; Toy.acc 0].

Definition X5 : Externals := Toy.externals five_steps [Toy.acc 50].

End Cases.

(** * Properties *)

(** ** The order of binary64 values *)

Module F64Facts.
Import F64.

Lemma lexc_spec e1 e2 m1 m2 : lexc_cases e1 e2 m1 m2 (lexc e1 e2 m1 m2).
Proof.
  unfold lexc. destruct (Z.compare_spec e1 e2).
  - change (Pos.compare_cont Eq m1 m2) with (Pos.compare m1 m2).
    destruct (Pos.compare_spec m1 m2); constructor; auto.
  - constructor; auto.
  - constructor; auto.
Qed.

Lemma SFcompare_finite s1 m1 e1 s2 m2 e2 :
  SFcompare (S754_finite s1 m1 e1) (S754_finite s2 m2 e2) =
  Some (match s1, s2 with
        | true, false => Lt
        | false, true => Gt
        | false, false => lexc e1 e2 m1 m2
        | true, true => CompOpp (lexc e1 e2 m1 m2)
        end).
Proof. destruct s1, s2; simpl; unfold lexc; destruct (e1 ?= e2); reflexivity. Qed.

Ltac lexc_solve :=
  repeat match goal with
         | |- context [lexc ?a ?b ?c ?d] => destruct (lexc_spec a b c d)
         | H : context [lexc ?a ?b ?c ?d] |- _ => destruct (lexc_spec a b c d)
         end;
  simpl in *; try congruence; try reflexivity; try (exfalso; lia).

Lemma SFcompare_antisym x y :
  SFcompare y x = option_map CompOpp (SFcompare x y).
Proof.
  destruct x as [sx|sx| |sx mx ex], y as [sy|sy| |sy my ey];
    rewrite ?SFcompare_finite; simpl; auto;
    try (destruct sx; auto; destruct sy; auto; fail).
  destruct sx, sy; simpl; auto; f_equal; lexc_solve.
Qed.

Lemma SFcompare_nan x y :
  is_nan x = false -> is_nan y = false -> exists c, SFcompare x y = Some c.
Proof.
  destruct x, y; simpl; intros; try discriminate; eauto.
Qed.

Lemma leb_refl x : is_nan x = false -> leb x x = true.
Proof.
  unfold leb, SFleb.
  destruct x as [s|s| |s m e]; rewrite ?SFcompare_finite; simpl;
    try congruence; auto.
  - destruct s; auto.
  - destruct s; lexc_solve.
Qed.

Lemma leb_trans x y z : leb x y = true -> leb y z = true -> leb x z = true.
Proof.
  unfold leb, SFleb.
  destruct x as [sx|sx| |sx mx ex], y as [sy|sy| |sy my ey], z as [sz|sz| |sz mz ez];
    rewrite ?SFcompare_finite; simpl; try congruence; auto;
    try (destruct sx; simpl; try congruence; auto);
    try (destruct sy; simpl; try congruence; auto);
    try (destruct sz; simpl; try congruence; auto); lexc_solve.
Qed.

(** [x > y] is true only between two numbers. *)
Lemma gtb_not_nan x y : gtb x y = true -> is_nan x = false /\ is_nan y = false.
Proof.
  unfold gtb, SFltb. destruct x, y; simpl; try discriminate; auto.
Qed.

Lemma gtb_leb x y : gtb y x = true -> leb x y = true.
Proof.
  unfold gtb, leb, SFltb, SFleb. destruct (SFcompare x y) as [[]|]; auto.
Qed.

(** Between two numbers, [not (x > y)] is [x <= y]. *)
Lemma not_gtb_leb x y :
  is_nan x = false -> is_nan y = false ->
  (gtb x y = false <-> leb x y = true).
Proof.
  intros Hx Hy. unfold gtb, leb, SFltb, SFleb.
  rewrite (SFcompare_antisym x y).
  destruct (SFcompare_nan x y Hx Hy) as [c ->]. destruct c; simpl; split; congruence.
Qed.

(** With a NaN on either side both comparisons are false. *)
Lemma nan_compares_false x :
  gtb S754_nan x = false /\ gtb x S754_nan = false /\
  leb S754_nan x = false /\ leb x S754_nan = false.
Proof. unfold gtb, leb, SFltb, SFleb. destruct x; simpl; auto. Qed.

End F64Facts.

(** ** The summation of [np.mean] *)

Module NumpyFacts.
Import Numpy.

Lemma pairwise_sum_eq fuel a :
  pairwise_sum fuel a =
  let n := length a in
  if (n <? 8)%nat then fold_left F64.add a (S754_zero true)
  else if (n <=? PW_BLOCKSIZE)%nat then
    let '(r, rest) := add_blocks (firstn 8 a) (skipn 8 a) (n / 8 - 1) in
    let res :=
      F64.add (F64.add (F64.add (at_ r 0) (at_ r 1)) (F64.add (at_ r 2) (at_ r 3)))
          (F64.add (F64.add (at_ r 4) (at_ r 5)) (F64.add (at_ r 6) (at_ r 7))) in
    fold_left F64.add rest res
  else
    match fuel with
    | O => S754_nan
    | S fuel' =>
        let n2 := (n / 2 - (n / 2) mod 8)%nat in
        F64.add (pairwise_sum fuel' (firstn n2 a)) (pairwise_sum fuel' (skipn n2 a))
    end.
Proof. destruct fuel; reflexivity. Qed.

(** The fuel of [sum] is never used up: any fuel from the length of the
    array on gives the same sum. *)
Lemma pairwise_sum_fuel fuel : forall fuel' a,
  (length a <= fuel)%nat -> (length a <= fuel')%nat ->
  pairwise_sum fuel a = pairwise_sum fuel' a.
Proof.
  induction fuel as [|f IH]; intros fuel' a H1 H2;
    rewrite (pairwise_sum_eq _ a), (pairwise_sum_eq fuel' a); cbv zeta.
  - destruct (Nat.ltb_spec (length a) 8); [reflexivity | lia].
  - destruct (Nat.ltb_spec (length a) 8); [reflexivity | ].
    destruct (Nat.leb_spec (length a) PW_BLOCKSIZE); [reflexivity | ].
    unfold PW_BLOCKSIZE in *.
    destruct fuel' as [|f']; [lia | ].
    pose proof (Nat.mod_upper_bound (length a / 2) 8 ltac:(lia)) as Hm.
    pose proof (Nat.Div0.div_lt_upper_bound (length a) 2 (length a) ltac:(lia)) as Hd.
    assert (Hge : (64 <= length a / 2)%nat)
      by (apply Nat.div_le_lower_bound; lia).
    f_equal; apply IH; rewrite ?length_firstn, ?length_skipn; lia.
Qed.

(** A loop that adds the items of a list to a partial sum. *)
Lemma fold_left_additions a : forall t0,
  exists t, value t = fold_left F64.add a (value t0) /\ items t = items t0 ++ a.
Proof.
  induction a as [|x a IH]; intros t0; cbn [fold_left].
  - exists t0. rewrite app_nil_r. split; reflexivity.
  - destruct (IH (Add t0 (Item x))) as (t & Hv & Hi).
    exists t. split; [exact Hv | ]. rewrite Hi. cbn [items].
    rewrite <- app_assoc. reflexivity.
Qed.

Lemma zip_with_additions (ts : list addition) : forall xs,
  length ts = length xs ->
  map value (zip_with Add ts (map Item xs)) = zip_with F64.add (map value ts) xs /\
  length (zip_with Add ts (map Item xs)) = length ts /\
  Permutation (concat (map items (zip_with Add ts (map Item xs))))
              (concat (map items ts) ++ xs).
Proof.
  induction ts as [|t ts IH]; intros [|x xs] Hlen; try discriminate Hlen.
  - repeat split; constructor.
  - injection Hlen as Hlen. destruct (IH xs Hlen) as (Hv & Hl & Hp).
    cbn [map zip_with concat items value length]. rewrite Hv, Hl.
    split; [reflexivity | split; [reflexivity | ]].
    rewrite Hp, <- !app_assoc. apply Permutation_app_head.
    cbn [app]. apply Permutation_middle.
Qed.

Lemma items_of_array l : concat (map items (map Item l)) = l.
Proof.
  induction l as [|x l IH]; cbn [map concat items app];
    [reflexivity | rewrite IH; reflexivity].
Qed.

(** The eight accumulators of the unrolled loop take in the items of the
    blocks, each item once. *)
Lemma add_blocks_additions blocks : forall (ts : list addition) a,
  length ts = 8%nat -> (8 * blocks <= length a)%nat ->
  exists ts' rest,
    add_blocks (map value ts) a blocks = (map value ts', rest) /\
    length ts' = 8%nat /\
    Permutation (concat (map items ts') ++ rest) (concat (map items ts) ++ a).
Proof.
  induction blocks as [|b IH]; intros ts a Hts Ha; cbn [add_blocks].
  - exists ts, a. split; [reflexivity | split; [exact Hts | reflexivity]].
  - assert (Hx : length ts = length (firstn 8 a)) by (rewrite length_firstn; lia).
    destruct (zip_with_additions ts (firstn 8 a) Hx) as (Hv & Hl & Hp).
    rewrite <- Hv.
    destruct (IH (zip_with Add ts (map Item (firstn 8 a))) (skipn 8 a))
      as (ts' & rest & Hrun & Hts' & Hp').
    { rewrite Hl. exact Hts. }
    { rewrite length_skipn. lia. }
    exists ts', rest. split; [exact Hrun | split; [exact Hts' | ]].
    rewrite Hp', Hp, <- app_assoc, firstn_skipn. reflexivity.
Qed.

(** The pairwise sum of an array is made of additions that take in every
    item of the array, and each of them once. *)
Lemma pairwise_sum_additions fuel : forall a,
  (length a <= fuel)%nat ->
  exists t, value t = pairwise_sum fuel a /\ Permutation (items t) a.
Proof.
  induction fuel as [|f IH]; intros a Hlen; rewrite pairwise_sum_eq; cbv zeta.
  - destruct (Nat.ltb_spec (length a) 8); [ | lia].
    destruct (fold_left_additions a (Start true)) as (t & Hv & Hi).
    exists t. split; [exact Hv | rewrite Hi; reflexivity].
  - destruct (Nat.ltb_spec (length a) 8).
    { destruct (fold_left_additions a (Start true)) as (t & Hv & Hi).
      exists t. split; [exact Hv | rewrite Hi; reflexivity]. }
    destruct (Nat.leb_spec (length a) PW_BLOCKSIZE).
    + pose proof (Nat.Div0.mul_div_le (length a) 8) as Hdiv.
      assert (Hge : (1 <= length a / 8)%nat)
        by (apply Nat.div_le_lower_bound; lia).
      destruct (add_blocks_additions (length a / 8 - 1)
                  (map Item (firstn 8 a)) (skipn 8 a))
        as (ts & rest & Hrun & Hts & Hp).
      { rewrite length_map, length_firstn. lia. }
      { rewrite length_skipn. lia. }
      rewrite map_map in Hrun. cbn [value] in Hrun. rewrite map_id in Hrun.
      rewrite Hrun.
      destruct ts as [|t0 [|t1 [|t2 [|t3 [|t4 [|t5 [|t6 [|t7 [|t8 ts]]]]]]]]];
        try discriminate Hts.
      cbn [map at_ nth].
      destruct (fold_left_additions rest
                  (Add (Add (Add t0 t1) (Add t2 t3)) (Add (Add t4 t5) (Add t6 t7))))
        as (t & Hv & Hi).
      exists t. split; [exact Hv | ]. rewrite Hi.
      cbn [items map concat] in *. rewrite app_nil_r in Hp.
      rewrite <- !app_assoc in *. rewrite Hp.
      rewrite items_of_array, firstn_skipn. reflexivity.
    + unfold PW_BLOCKSIZE in *.
      pose proof (Nat.mod_upper_bound (length a / 2) 8 ltac:(lia)) as Hm.
      pose proof (Nat.Div0.div_lt_upper_bound (length a) 2 (length a) ltac:(lia)) as Hd.
      assert (Hge : (64 <= length a / 2)%nat)
        by (apply Nat.div_le_lower_bound; lia).
      destruct (IH (firstn (length a / 2 - (length a / 2) mod 8) a)) as (t1 & Hv1 & Hi1).
      { rewrite length_firstn. lia. }
      destruct (IH (skipn (length a / 2 - (length a / 2) mod 8) a)) as (t2 & Hv2 & Hi2).
      { rewrite length_skipn. lia. }
      exists (Add t1 t2). cbn [value items]. rewrite Hv1, Hv2, Hi1, Hi2, firstn_skipn.
      split; reflexivity.
Qed.

(** [np.mean]: additions that take in every item exactly once, with no
    weight, and one division by the number of items. *)
Lemma mean_additions a :
  exists t, mean a = F64.div (value t) (F64.of_Z (Z.of_nat (length a))) /\
            Permutation (items t) a.
Proof.
  destruct (pairwise_sum_additions (length a) a (Nat.le_refl _)) as (t & Hv & Hi).
  exists (Add (Start false) t). cbn [value items app]. rewrite Hv.
  split; [reflexivity | exact Hi].
Qed.

End NumpyFacts.

(** ** Strings *)

Module StrFacts.
Import Str.

Lemma append_cons c (s t : string) : String c s +:+ t = String c (s +:+ t).
Proof. reflexivity. Qed.

Lemma append_nil_l (t : string) : EmptyString +:+ t = t.
Proof. reflexivity. Qed.

Ltac str_simpl := rewrite ?append_cons, ?append_nil_l in *.

Lemma append_nil_inv (s1 s2 : string) :
  s1 +:+ s2 = EmptyString -> s1 = EmptyString /\ s2 = EmptyString.
Proof. destruct s1; str_simpl; [auto | discriminate]. Qed.






(** What [rstrip] returns does not end with the stripped character. *)
Lemma rstrip_endswith c s : endswith_char (rstrip c s) c = false.
Proof.
  induction s as [|a s IH]; simpl; auto.
  destruct (rstrip c s) as [|b r] eqn:Hr.
  - destruct (Ascii.eqb_spec a c); simpl; auto.
    apply Ascii.eqb_neq; auto.
  - simpl in *. exact IH.
Qed.

Lemma rstrip_not_slash s : rstrip slash s <> "/".
Proof.
  intros H. pose proof (rstrip_endswith slash s) as Hn.
  rewrite H in Hn. discriminate.
Qed.

End StrFacts.

(** ** Decoded names *)

Module UnicodeFacts.
Import Unicode Str StrFacts.

Lemma codes_app (a b : string) : codes (a +:+ b) = codes a ++ codes b.
Proof.
  induction a as [|x a IH]; str_simpl; simpl; [reflexivity | rewrite IH; reflexivity].
Qed.

(** An ASCII byte is a character of its own, whatever follows it. *)
Lemma fsdecode_ascii a s :
  (ord a <? 128)%N = true -> fsdecode (String a s) = ord a :: fsdecode s.
Proof. intros H. cbn [fsdecode]. cbv zeta. rewrite H. reflexivity. Qed.

Lemma ascii_digit_decimal c :
  is_ascii_digit c = true -> (ord c <? 128)%N = true /\ isdecimal (ord c) = true.
Proof.
  destruct c as [[] [] [] [] [] [] [] []]; intros H; try discriminate H;
    split; vm_compute; reflexivity.
Qed.

Lemma fsdecode_digits ds : forall r,
  all_digits ds = true ->
  fsdecode (ds +:+ r) = codes ds ++ fsdecode r /\
  forallb isdecimal (codes ds) = true.
Proof.
  induction ds as [|c ds IH]; intros r Hd; str_simpl; [split; reflexivity | ].
  cbn [all_digits] in Hd. apply andb_true_iff in Hd as [Hc Hd].
  destruct (ascii_digit_decimal c Hc) as [Ha Hdec].
  destruct (IH r Hd) as [IH1 IH2].
  rewrite (fsdecode_ascii c _ Ha), IH1. cbn [codes forallb app].
  rewrite Hdec, IH2. split; reflexivity.
Qed.

Lemma codes_nil s : codes s = [] -> s = EmptyString.
Proof. destruct s; [reflexivity | discriminate]. Qed.

(** Encoding undoes decoding, whatever the bytes. *)
Section Encoding.
Local Open Scope N_scope.












End Encoding.

End UnicodeFacts.

(** ** The matcher against the words of an expression *)

Module RegexFacts.
Import Regex Str StrFacts Unicode UnicodeFacts.

Lemma nullable_lang r : nullable r = true <-> lang r [].
Proof.
  split.
  - induction r; simpl; intros H; try discriminate.
    + constructor.
    + apply andb_true_iff in H as [H1 H2].
      change (@nil N) with (@nil N ++ []). constructor; auto.
    + apply orb_true_iff in H as [H|H]; [apply lang_alt_l | apply lang_alt_r]; auto.
    + constructor.
  - intros H. remember (@nil N) as w eqn:Hw.
    induction H; simpl; auto; try discriminate.
    + apply app_eq_nil in Hw as [-> ->]. rewrite IHlang1, IHlang2; auto.
    + rewrite IHlang; auto.
    + rewrite IHlang, orb_true_r; auto.
Qed.

Lemma deriv_sound c r : forall s, lang (deriv c r) s -> lang r (c :: s).
Proof.
  induction r; simpl; intros s H.
  - inversion H.
  - inversion H.
  - destruct (N.eqb_spec c0 c); inversion H; subst. constructor.
  - destruct (isdecimal c) eqn:Hd; inversion H; subst. constructor; auto.
  - assert (Hcat : forall s, lang (Cat (deriv c r1) r2) s -> lang (Cat r1 r2) (c :: s)).
    { intros s0 H0. inversion H0; subst.
      change (c :: s1 ++ s2) with ((c :: s1) ++ s2). constructor; auto. }
    destruct (nullable r1) eqn:Hn; auto.
    inversion H; subst; auto.
    change (c :: s) with ([] ++ c :: s).
    constructor; auto. apply nullable_lang; auto.
  - inversion H; subst; [apply lang_alt_l | apply lang_alt_r]; auto.
  - inversion H; subst.
    change (c :: s1 ++ s2) with ((c :: s1) ++ s2). constructor; auto.
Qed.

Lemma deriv_complete c r w : lang r w -> forall s, w = c :: s -> lang (deriv c r) s.
Proof.
  induction 1; intros s0 Hw; simpl; try discriminate.
  - injection Hw as -> <-. rewrite N.eqb_refl. constructor.
  - injection Hw as -> <-. rewrite H. constructor.
  - destruct s1 as [|a s1]; cbn [app] in Hw.
    + assert (Hn : nullable r1 = true) by (apply nullable_lang; auto).
      rewrite Hn. apply lang_alt_r; auto.
    + injection Hw as -> <-.
      assert (lang (Cat (deriv c r1) r2) (s1 ++ s2)) by (constructor; auto).
      destruct (nullable r1); auto. apply lang_alt_l; auto.
  - apply lang_alt_l; auto.
  - apply lang_alt_r; auto.
  - destruct s1 as [|a s1]; cbn [app] in Hw.
    + apply IHlang2 in Hw. exact Hw.
    + injection Hw as -> <-. constructor; auto.
Qed.

(** [re_match] answers whether some prefix of the string is a word. *)
Lemma re_match_spec s : forall r,
  re_match r s = true <-> exists p q, s = p ++ q /\ lang r p.
Proof.
  induction s as [|c s IH]; intros r; simpl.
  - rewrite orb_false_r, nullable_lang. split.
    + intros H. exists [], []; auto.
    + intros (p & q & Hs & Hp). symmetry in Hs.
      apply app_eq_nil in Hs as [-> ->]; auto.
  - rewrite orb_true_iff, IH, nullable_lang. split.
    + intros [H | (p & q & -> & Hp)].
      * exists [], (c :: s); auto.
      * exists (c :: p), q. split; auto. apply deriv_sound; auto.
    + intros (p & q & Hs & Hp). destruct p as [|a p]; auto.
      cbn [app] in Hs. injection Hs as <- ->. right. exists p, q. split; auto.
      eapply deriv_complete; eauto.
Qed.

Lemma lang_lit w : forall s, lang (lit w) s <-> s = codes w.
Proof.
  induction w as [|c w IH]; intros s; simpl.
  - split; [inversion 1; auto | intros ->; constructor].
  - split.
    + inversion 1 as [| | |? ? s1 s2 H1 H2| | | |]; subst.
      inversion H1; subst. apply IH in H2. subst. reflexivity.
    + intros ->. change (ord c :: codes w) with ([ord c] ++ codes w).
      constructor; [constructor | apply IH; auto].
Qed.

Lemma lang_chr c s : lang (Chr c) s <-> s = [c].
Proof. split; [inversion 1; auto | intros ->; constructor]. Qed.

Lemma lang_star_digit s : lang (Star Digit) s <-> forallb isdecimal s = true.
Proof.
  split.
  - intros H. remember (Star Digit) as r eqn:Hr.
    induction H; try discriminate; auto.
    injection Hr as ->. rewrite forallb_app, IHlang2 by reflexivity.
    inversion H as [| |c Hc| | | | |]; subst. simpl. rewrite Hc. reflexivity.
  - induction s as [|c s IH]; simpl; intros H.
    + constructor.
    + apply andb_true_iff in H as [Hc Hs].
      change (c :: s) with ([c] ++ s).
      constructor; [constructor; auto | auto].
Qed.

Lemma lang_plus_digit s :
  lang (Plus Digit) s <-> s <> [] /\ forallb isdecimal s = true.
Proof.
  unfold Plus. split.
  - inversion 1 as [| | |? ? s1 s2 H1 H2| | | |]; subst.
    inversion H1 as [| |c Hc| | | | |]; subst. apply lang_star_digit in H2.
    simpl. rewrite H2, Hc. split; [discriminate | reflexivity].
  - intros [Hne Hd]. destruct s as [|c s]; [congruence | ].
    simpl in Hd. apply andb_true_iff in Hd as [Hc Hs].
    change (c :: s) with ([c] ++ s).
    constructor; [constructor; auto | apply lang_star_digit; auto].
Qed.

(** What the pattern of the code accepts: a [str] that starts with [epoch],
    one or more decimal digits and [.ckp]; the [t*] and what follows are
    free. *)
Lemma model_regex_match w :
  re_match model_regex w = true <->
  exists ds rest,
    w = codes "epoch" ++ ds ++ codes ".ckp" ++ rest /\
    ds <> [] /\ forallb isdecimal ds = true.
Proof.
  rewrite re_match_spec. unfold model_regex. split.
  - intros (p & q & -> & Hp).
    inversion Hp as [| | |? ? s1 s2 H1 H2| | | |]; subst. clear Hp.
    apply (lang_lit "epoch") in H1. subst s1.
    inversion H2 as [| | |? ? ds s3 H3 H4| | | |]; subst. clear H2.
    apply lang_plus_digit in H3 as [Hne Hd].
    inversion H4 as [| | |? ? s4 s5 H5 H6| | | |]; subst. clear H4.
    apply lang_chr in H5. subst s4.
    inversion H6 as [| | |? ? s6 s7 H7 H8| | | |]; subst. clear H6.
    apply (lang_lit "ckp") in H7. subst s6.
    exists ds, (s7 ++ q). split; [ | auto].
    rewrite <- !app_assoc. reflexivity.
  - intros (ds & rest & -> & Hne & Hd).
    exists (codes "epoch" ++ ds ++ [ord "."] ++ codes "ckp" ++ []), rest. split.
    + rewrite <- !app_assoc. reflexivity.
    + constructor; [apply (lang_lit "epoch"); auto | ].
      constructor; [apply lang_plus_digit; auto | ].
      constructor; [constructor | ].
      constructor; [apply (lang_lit "ckp"); auto | constructor].
Qed.

(** A [str] that the pattern matches is matched whatever is appended. *)
Lemma re_match_app r w suffix :
  re_match r w = true -> re_match r (w ++ suffix) = true.
Proof.
  rewrite !re_match_spec. intros (p & q & -> & Hp).
  exists p, (q ++ suffix). rewrite app_assoc. auto.
Qed.





(** A name in bytes that reads [epoch], ASCII digits, [.ckp] and anything
    is a name that the pattern matches once it is decoded. *)
Lemma stale_name_ascii ds rest :
  ds <> EmptyString -> all_digits ds = true ->
  stale_name ("epoch" +:+ ds +:+ ".ckp" +:+ rest) = true.
Proof.
  intros Hne Hd. unfold stale_name. apply model_regex_match.
  destruct (fsdecode_digits ds (".ckp" +:+ rest) Hd) as [Hdec Hall].
  exists (codes ds), (fsdecode rest). split; [ | split; [ | exact Hall]].
  - str_simpl. rewrite !fsdecode_ascii by reflexivity. rewrite Hdec.
    str_simpl. rewrite !fsdecode_ascii by reflexivity. reflexivity.
  - intros H. apply codes_nil in H. contradiction.
Qed.


End RegexFacts.

(** ** The file system *)

Module PosixFacts.
Import Str StrFacts Posix.


Lemma resolve_nil_inv p : resolve p = EmptyString -> p = EmptyString.
Proof.
  induction p as [|a p IH]; [reflexivity | ]. cbn [resolve].
  destruct (Ascii.eqb a slash); [ | discriminate].
  destruct p as [|b p]; [discriminate | ].
  destruct (Ascii.eqb b slash); [ | discriminate].
  intros H. apply IH in H. discriminate H.
Qed.








Section FsFacts.
Context {C : Type}.
Implicit Types m : gmap string (node C).



Lemma makedirs_preserves m p m' :
  makedirs m p = Ok m' -> forall q x, m !! q = Some x -> m' !! q = Some x.
Proof.
  unfold makedirs. cbv zeta. destruct (String.eqb (resolve p) ""); [discriminate | ].
  unfold exists_. destruct (m !! resolve p) eqn:Hp; [discriminate | ].
  destruct (existsb (is_file m) (ancestors (resolve p))); [discriminate | ].
  intros [= <-] q x Hq.
  induction (ancestors (resolve p)) as [|a l IH]; simpl.
  - rewrite lookup_insert_ne; auto. congruence.
  - destruct (_ !! a) eqn:Ha; auto.
    rewrite lookup_insert_ne; auto. congruence.
Qed.

End FsFacts.
End PosixFacts.


(** ** Loops *)

Section Loops.
Context {S A : Type}.
Variable body : A -> S -> S * signal.

Lemma for_each_app (l1 l2 : list A) (st : S) :
  for_each body (l1 ++ l2) st =
  match for_each body l1 st with
  | (st', Normal) => for_each body l2 st'
  | r => r
  end.
Proof.
  revert st. induction l1 as [|x l1 IH]; intros st; simpl; [reflexivity | ].
  destruct (body x st) as [st' []]; auto.
Qed.

(** A property that every iteration keeps holds when the loop is left. *)
Lemma for_each_inv (P : S -> Prop) (l : list A) :
  (forall x st, P st -> P (fst (body x st))) ->
  forall st, P st -> P (fst (for_each body l st)).
Proof.
  intros Hbody. induction l as [|x l IH]; intros st Hst; simpl; [exact Hst | ].
  specialize (Hbody x st Hst). destruct (body x st) as [st' []]; simpl in *; auto.
Qed.

(** A transitive relation that every iteration respects holds between the
    state before the loop and the state after it. *)
Lemma for_each_rel (I : S -> Prop) (R : S -> S -> Prop) (l : list A) :
  (forall st, I st -> R st st) ->
  (forall a b c, R a b -> R b c -> R a c) ->
  (forall x st, I st -> I (fst (body x st)) /\ R st (fst (body x st))) ->
  forall st, I st -> I (fst (for_each body l st)) /\ R st (fst (for_each body l st)).
Proof.
  intros Hrefl Htrans Hbody. induction l as [|x l IH]; intros st Hst; simpl.
  - split; auto.
  - destruct (Hbody x st Hst) as [HI HR].
    destruct (body x st) as [st' []]; simpl in *; auto.
    destruct (IH st' HI) as [HI' HR']. split; eauto.
Qed.

Lemma py_for_fst (l : list A) (st : S) :
  fst (py_for body l st) = fst (for_each body l st).
Proof. unfold py_for. destruct (for_each body l st) as [st' []]; reflexivity. Qed.

(** A loop whose body never breaks is left normally or by an exception. *)
Lemma for_each_no_break (l : list A) :
  (forall x st, snd (body x st) <> Break) ->
  forall st, snd (for_each body l st) <> Break.
Proof.
  intros Hbody. induction l as [|x l IH]; intros st; simpl; [discriminate | ].
  specialize (Hbody x st). destruct (body x st) as [st' []]; simpl in *; auto.
Qed.

(** The state after a prefix of the iterations is related to the state after
    more of them. *)
Lemma for_each_rel_prefix (I : S -> Prop) (R : S -> S -> Prop) (l1 l2 : list A) :
  (forall st, I st -> R st st) ->
  (forall a b c, R a b -> R b c -> R a c) ->
  (forall x st, I st -> I (fst (body x st)) /\ R st (fst (body x st))) ->
  forall st, I st ->
    R (fst (for_each body l1 st)) (fst (for_each body (l1 ++ l2) st)).
Proof.
  intros Hrefl Htrans Hbody st Hst. rewrite for_each_app.
  destruct (for_each_rel I R l1 Hrefl Htrans Hbody st Hst) as [HI _].
  destruct (for_each body l1 st) as [st' []]; cbn [fst] in *; auto.
  apply (for_each_rel I R l2 Hrefl Htrans Hbody st' HI).
Qed.

End Loops.

Lemma firstn_add {A : Type} (n k : nat) (l : list A) :
  firstn (n + k) l = firstn n l ++ firstn k (skipn n l).
Proof.
  revert l. induction n as [|n IH]; intros l; simpl; [reflexivity | ].
  destruct l as [|x l]; simpl.
  - destruct k; reflexivity.
  - rewrite IH. reflexivity.
Qed.

(** ** Start-up *)

Import Str StrFacts Posix PosixFacts RegexFacts F64Facts.

Section StartupFacts.
Context `{E : Externals}.
Variable args : Args.



















(** When the directory is missing, start-up creates it and deletes nothing. *)
Lemma startup_missing_dir (m m' : gmap string (node content)) :
  let dir := normalized_model_dir args in
  args_model_dir args <> "/" ->
  m !! resolve dir = None ->
  makedirs m dir = Ok m' ->
  startup (initial args m) =
  (set_model_dir (dir +:+ "/") (set_fs m' (set_model_dir dir (initial args m))), Normal) /\
  (forall q x, m !! q = Some x -> m' !! q = Some x).
Proof.
  intros dir Hne Hd Hmk. split; [ | eapply makedirs_preserves; eauto].
  unfold startup. cbn [model_dir initial].
  destruct (String.eqb_spec (args_model_dir args) "/") as [|_]; [contradiction | ].
  cbn [negb]. fold (normalized_model_dir args). fold dir.
  cbn [fs set_model_dir model_dir].
  change (fs (initial args m)) with m.
  unfold exists_. rewrite Hd. cbn [negb]. rewrite Hmk. reflexivity.
Qed.

End StartupFacts.

(** ** The loaders *)

Lemma batch_sampler_nonempty {A : Type} size : forall sampler current : list A,
  current <> [] \/ sampler <> [] -> batch_sampler size current sampler <> [].
Proof.
  induction sampler as [|idx rest IH]; intros current H; cbn [batch_sampler].
  - destruct H as [H|H]; [ | congruence].
    destruct current; [congruence | discriminate].
  - destruct (length (current ++ [idx]) =? size)%nat; [discriminate | ].
    apply IH. left. destruct current; discriminate.
Qed.

Section LoaderFacts.
Context `{E : Externals}.

Lemma DataLoader_cases (dataset : list sample) :
  (DataLoader dataset = Ok tt /\ dataset <> [] /\ 0 < batch_size) \/
  (DataLoader dataset = Raise ValueError /\ (dataset = [] \/ batch_size <= 0)).
Proof.
  unfold DataLoader. destruct dataset as [|x l]; cbn [length Nat.eqb].
  - right. auto.
  - destruct (Z.leb_spec batch_size 0); [right; auto | left].
    split; [reflexivity | split; [discriminate | assumption]].
Qed.

Lemma batches_nonempty (order : list sample) : order <> [] -> batches order <> [].
Proof.
  intros H Hb. unfold batches in Hb. apply map_eq_nil in Hb.
  revert Hb. apply batch_sampler_nonempty. right. exact H.
Qed.

(** A pass over a loader draws every record of the file, so it has a batch
    when the file has a record. *)
Lemma valid_loader_nonempty :
  valid_dataset <> [] -> forall epoch i, valid_loader epoch i <> [].
Proof.
  intros H epoch i. apply batches_nonempty. intros Ho.
  pose proof (valid_order_shuffles epoch i) as Hp. rewrite Ho in Hp.
  apply Permutation_nil in Hp. contradiction.
Qed.

Lemma train_loader_nonempty :
  train_dataset <> [] -> forall epoch, train_loader epoch <> [].
Proof.
  intros H epoch. apply batches_nonempty. intros Ho.
  pose proof (train_order_shuffles epoch) as Hp. rewrite Ho in Hp.
  apply Permutation_nil in Hp. contradiction.
Qed.

End LoaderFacts.

Lemma enumerate_lookup {A : Type} (l : list A) : forall a k b,
  l !! k = Some b -> combine (seq a (length l)) l !! k = Some ((a + k)%nat, b).
Proof.
  induction l as [|x l IH]; intros a k b H; [discriminate H | ].
  destruct k as [|k]; cbn [length seq combine] in *.
  - injection H as ->. rewrite Nat.add_0_r. reflexivity.
  - change ((combine (seq (S a) (length l)) l) !! k = Some ((a + S k)%nat, b)).
    rewrite (IH (S a) k b H). f_equal. f_equal. lia.
Qed.

(** ** The training loop *)

Section TrainFacts.
Context `{E : Externals}.
Variable args : Args.

Lemma repeat_shift {A} (x : A) n l : repeat x n ++ x :: l = x :: repeat x n ++ l.
Proof. induction n as [|n IH]; simpl; [reflexivity | rewrite IH; reflexivity]. Qed.

(** The validation pass only reads the classifier: one forward call per
    batch, and every variable as before. *)
Lemma validation_pass_state (l : list batch) : forall st : state,
  snd (validation_pass l st) =
  State (fs st) (model_dir st) (model st) (mode st) (optimizer st)
        (curr_best_accuracy st) (curr_best_accuracy_epoch st)
        (repeat model_forward (length l) ++ trace st).
Proof.
  unfold validation_pass. cbn [snd].
  induction l as [|b l IH]; intros st; cbn [fold_left length repeat].
  - destruct st; reflexivity.
  - rewrite IH. cbn [emit fs model_dir model mode optimizer curr_best_accuracy
                     curr_best_accuracy_epoch trace].
    rewrite repeat_shift. reflexivity.
Qed.

Lemma validation_pass_scores (l : list batch) (st : state) :
  fst (validation_pass l st) = map (evaluate (model st)) l.
Proof. reflexivity. Qed.

Lemma torch_save_eq path (st : state) :
  exists m sg,
    torch_save path st =
    (State m (model_dir st) (model st) (mode st) (optimizer st)
           (curr_best_accuracy st) (curr_best_accuracy_epoch st)
           (torch_save_call path :: trace st), sg) /\
    sg <> Break /\
    (sg = Normal -> m = <[resolve path := File (StateDict (model st))]> (fs st)) /\
    (sg <> Normal -> m = fs st).
Proof.
  unfold torch_save. cbn [fs emit model].
  destruct (write_file (fs st) path (StateDict (model st))) as [m|e] eqn:Hw.
  - exists m, Normal. repeat split; try discriminate; try congruence.
    intros _. unfold write_file in Hw. cbv zeta in Hw.
    destruct (fs st !! resolve path) as [[|c]|]; try discriminate;
      destruct (fs st !! parent (resolve path)) as [[|c']|]; try discriminate;
      congruence.
  - exists (fs st), (Raised e). repeat split; try discriminate; try congruence.
Qed.

(** The three ways through lines 126-129. *)
Lemma checkpoint_cases epoch mean (st : state) :
  (F64.gtb mean (curr_best_accuracy_epoch st) = false /\
   checkpoint epoch mean st = (st, Normal)) \/
  (F64.gtb mean (curr_best_accuracy_epoch st) = true /\
   F64.gtb mean (F64.sub (curr_best_accuracy st) (F64.decimal 1 1000)) = false /\
   checkpoint epoch mean st = (set_curr_best_accuracy_epoch mean st, Normal)) \/
  (F64.gtb mean (curr_best_accuracy_epoch st) = true /\
   F64.gtb mean (F64.sub (curr_best_accuracy st) (F64.decimal 1 1000)) = true /\
   checkpoint epoch mean st =
   torch_save (checkpoint_path (model_dir st) epoch)
              (set_curr_best_accuracy_epoch mean st)).
Proof.
  unfold checkpoint.
  destruct (F64.gtb mean (curr_best_accuracy_epoch st)); [ | left; auto].
  cbn [curr_best_accuracy_epoch curr_best_accuracy model_dir
       set_curr_best_accuracy_epoch].
  destruct (F64.gtb mean _); [right; right | right; left]; auto.
Qed.

(** A validation round, with the state of the validation pass spelled out. *)
Lemma validation_round_eq epoch i (st : state) :
  let vs := map (evaluate (model st)) (valid_loader epoch i) in
  let st2 :=
    State (fs st) (model_dir st) (model st) Evaluation (optimizer st)
          (curr_best_accuracy st) (curr_best_accuracy_epoch st)
          ((repeat model_forward (length (valid_loader epoch i))
              ++ [model_eval]) ++ trace st) in
  validation_round epoch i st =
  match checkpoint epoch (Numpy.mean (map accuracy vs)) st2 with
  | (st3, Normal) =>
      (emit (print_progress (epoch + 1) (i + 1) (summarize vs)
                            (curr_best_accuracy_epoch st3)) st3, Normal)
  | r => r
  end.
Proof.
  intros vs st2. unfold validation_round.
  pose proof (validation_pass_state (valid_loader epoch i)
                (emit model_eval (set_mode Evaluation st))) as Hst.
  pose proof (validation_pass_scores (valid_loader epoch i)
                (emit model_eval (set_mode Evaluation st))) as Hvs.
  destruct (validation_pass _ _) as [vs' st2']. cbn in Hst, Hvs. subst vs' st2' vs st2.
  rewrite <- app_assoc. reflexivity.
Qed.

Lemma update_eq b (st : state) :
  update b st =
  State (fs st) (model_dir st)
        (fst (optimizer_step (model st) (optimizer st) b)) Training
        (snd (optimizer_step (model st) (optimizer st) b))
        (curr_best_accuracy st) (curr_best_accuracy_epoch st)
        (optimizer_step_call :: model_train :: trace st).
Proof.
  unfold update. cbn [emit set_mode model optimizer].
  destruct (optimizer_step (model st) (optimizer st) b); reflexivity.
Qed.

Lemma train_step_cases epoch i b (st : state) :
  (args_step_interval args = 0 /\
   train_step args epoch (i, b) st = (update b st, Raised ZeroDivisionError)) \/
  (args_step_interval args <> 0 /\
   (Z.of_nat i + 1) mod args_step_interval args = 0 /\
   train_step args epoch (i, b) st = validation_round epoch i (update b st)) \/
  (args_step_interval args <> 0 /\
   (Z.of_nat i + 1) mod args_step_interval args <> 0 /\
   train_step args epoch (i, b) st = (update b st, Normal)).
Proof.
  unfold train_step, py_mod.
  destruct (Z.eqb_spec (args_step_interval args) 0) as [H0|H0]; [left; auto | right].
  destruct (Z.eqb_spec ((Z.of_nat i + 1) mod args_step_interval args) 0); auto.
Qed.

Lemma validation_round_result epoch i (st : state) :
  round_result epoch i st (validation_round epoch i st).
Proof.
  rewrite validation_round_eq. cbv zeta.
  set (mean := Numpy.mean _). set (vs := map (evaluate (model st)) _).
  set (n := length _).
  destruct (checkpoint_cases epoch mean
              (State (fs st) (model_dir st) (model st) Evaluation (optimizer st)
                 (curr_best_accuracy st) (curr_best_accuracy_epoch st)
                 ((repeat model_forward n ++ [model_eval]) ++ trace st)))
    as [(Hg & ->) | [(Hg & Hw & ->) | (Hg & Hw & ->)]];
    unfold set_curr_best_accuracy_epoch in *;
    cbn [curr_best_accuracy_epoch curr_best_accuracy model_dir
         emit fs model mode optimizer trace] in *.
  - apply (round_done epoch i st (fs st) (curr_best_accuracy_epoch st)
             [print_progress (epoch + 1) (i + 1) (summarize vs)
                (curr_best_accuracy_epoch st)] [] Normal);
      [discriminate | auto | right; eauto | auto].
  - apply (round_done epoch i st (fs st) mean
             [print_progress (epoch + 1) (i + 1) (summarize vs) mean] [] Normal);
      [discriminate | auto | right; eauto | auto].
  - destruct (torch_save_eq (checkpoint_path (model_dir st) epoch)
                (State (fs st) (model_dir st) (model st) Evaluation (optimizer st)
                   (curr_best_accuracy st) mean
                   ((repeat model_forward n ++ [model_eval]) ++ trace st)))
      as (m & sg & -> & Hsg & _).
    cbn [curr_best_accuracy_epoch curr_best_accuracy model_dir
         emit fs model mode optimizer trace].
    destruct sg as [| |e]; [ | congruence | ];
      cbn [curr_best_accuracy_epoch curr_best_accuracy model_dir
           emit fs model mode optimizer trace].
    + apply (round_done epoch i st m mean
               [print_progress (epoch + 1) (i + 1) (summarize vs) mean]
               [torch_save_call (checkpoint_path (model_dir st) epoch)] Normal);
        [discriminate | auto | right; eauto | auto].
    + apply (round_done epoch i st m mean []
               [torch_save_call (checkpoint_path (model_dir st) epoch)] (Raised e));
        [discriminate | auto | auto | auto].
Qed.

Lemma filter_repeat_forward (kind : call -> bool) n :
  length (List.filter kind (repeat model_forward n)) =
  if kind model_forward then n else 0%nat.
Proof.
  induction n as [|n IH]; simpl; [destruct (kind model_forward); reflexivity | ].
  destruct (kind model_forward); simpl; auto.
Qed.

(** The calls of a validation round: one [model.eval()], one forward pass per
    validation batch, no optimizer step, at most one [torch.save]. *)
Lemma round_calls epoch i (st : state) r :
  round_result epoch i st r ->
  calls is_model_eval (fst r) = S (calls is_model_eval st) /\
  calls is_model_forward (fst r) =
    (length (valid_loader epoch i) + calls is_model_forward st)%nat /\
  calls is_optimizer_step (fst r) = calls is_optimizer_step st /\
  (calls is_torch_save (fst r) = calls is_torch_save st \/
   calls is_torch_save (fst r) = S (calls is_torch_save st)).
Proof.
  intros [m cbe pr sv sg _ _ Hpr Hsv]. unfold calls. cbn [fst trace].
  rewrite !List.filter_app, !length_app, !filter_repeat_forward.
  destruct Hpr as [->|(s & b & ->)], Hsv as [->| ->]; cbn; repeat split; auto; lia.
Qed.

Lemma update_calls (kind : call -> bool) b (st : state) :
  kind optimizer_step_call = false -> kind model_train = false ->
  calls kind (update b st) = calls kind st.
Proof.
  intros H1 H2. rewrite update_eq. unfold calls. cbn [trace List.filter].
  rewrite H1, H2. reflexivity.
Qed.

Lemma step_intro epoch (st : state) m p md o cbe tr extra sg :
  tr = extra ++ trace st ->
  sg <> Break ->
  (cbe = curr_best_accuracy_epoch st \/
   F64.gtb cbe (curr_best_accuracy_epoch st) = true) ->
  (forall path, In (torch_save_call path) extra ->
                path = checkpoint_path (model_dir st) epoch) ->
  step_result epoch st
    (State m (model_dir st) p md o (curr_best_accuracy st) cbe tr, sg).
Proof. intros ->. apply step_done. Qed.

Lemma train_step_result epoch i b (st : state) :
  step_result epoch st (train_step args epoch (i, b) st).
Proof.
  destruct (train_step_cases epoch i b st)
    as [(_ & ->) | [(_ & _ & ->) | (_ & _ & ->)]].
  - rewrite update_eq.
    apply (step_done epoch st _ _ _ _ _ [optimizer_step_call; model_train]);
      [discriminate | auto | ].
    intros path [H|[H|[]]]; discriminate.
  - pose proof (validation_round_result epoch i (update b st)) as Hr.
    inversion Hr as [m cbe pr sv sg Hsg Hcbe Hpr Hsv Heq]. clear Hr Heq.
    rewrite update_eq.
    cbn [curr_best_accuracy_epoch curr_best_accuracy model_dir
         fs model mode optimizer trace].
    rewrite update_eq in Hcbe, Hsv.
    cbn [curr_best_accuracy_epoch curr_best_accuracy model_dir
         fs model mode optimizer trace] in Hcbe, Hsv.
    apply (step_intro epoch st m _ Evaluation _ cbe _
             (pr ++ sv ++ (repeat model_forward (length (valid_loader epoch i))
                             ++ [model_eval]) ++ [optimizer_step_call; model_train])).
    + repeat rewrite <- app_assoc. reflexivity.
    + exact Hsg.
    + exact Hcbe.
    + intros path Hin.
      apply in_app_or in Hin as [Hin|Hin].
      { destruct Hpr as [->|(s & b0 & ->)]; [destruct Hin | ].
        destruct Hin as [Hin|[]]; discriminate. }
      apply in_app_or in Hin as [Hin|Hin].
      { destruct Hsv as [->| ->]; [destruct Hin | ].
        destruct Hin as [Hin|[]]; congruence. }
      apply in_app_or in Hin as [Hin|Hin].
      { apply in_app_or in Hin as [Hin|Hin].
        - apply repeat_spec in Hin. discriminate.
        - destruct Hin as [Hin|[]]; discriminate. }
      destruct Hin as [Hin|[Hin|[]]]; discriminate.
  - rewrite update_eq.
    apply (step_done epoch st _ _ _ _ _ [optimizer_step_call; model_train]);
      [discriminate | auto | ].
    intros path [H|[H|[]]]; discriminate.
Qed.


(** A training step makes a validation round (one [model.eval()] and one
    forward pass per batch of the whole validation stream) exactly when
    [step_interval] divides [i + 1]; any other step makes none. *)
Lemma train_step_validates epoch i b (st : state) :
  let st' := fst (train_step args epoch (i, b) st) in
  (calls is_model_eval st' = S (calls is_model_eval st) <->
   (args_step_interval args | Z.of_nat i + 1)) /\
  (calls is_model_eval st' = S (calls is_model_eval st) \/
   calls is_model_eval st' = calls is_model_eval st /\
   calls is_model_forward st' = calls is_model_forward st) /\
  (calls is_model_eval st' = S (calls is_model_eval st) ->
   calls is_model_forward st' =
   (length (valid_loader epoch i) + calls is_model_forward st)%nat).
Proof.
  cbv zeta.
  assert (Hsame : forall X : Prop,
             (calls is_model_eval (update b st) = S (calls is_model_eval st) -> X)).
  { intros X. rewrite update_calls by reflexivity. intros H.
    exact (False_ind _ (n_Sn _ H)). }
  destruct (train_step_cases epoch i b st)
    as [(H0 & ->) | [(H0 & Hm & ->) | (H0 & Hm & ->)]]; cbn [fst].
  - split; [split; [apply Hsame | ] | split; [right | apply Hsame]].
    + rewrite H0. intros Hd. apply Z.divide_0_l in Hd. lia.
    + split; apply update_calls; reflexivity.
  - destruct (round_calls epoch i (update b st) _
                (validation_round_result epoch i (update b st)))
      as (He & Hf & _).
    rewrite !update_calls in He, Hf by reflexivity.
    split; [split; [intros _; apply Z.mod_divide; auto | auto] | split; auto].
  - split; [split; [apply Hsame | ] | split; [right | apply Hsame]].
    + intros Hd. apply Z.mod_divide in Hd; auto. contradiction.
    + split; apply update_calls; reflexivity.
Qed.

Lemma training_pass_eq_early epoch (st : state) :
  snd (for_each (train_step args epoch) (enumerate (train_loader epoch)) st) <> Break.
Proof.
  apply for_each_no_break. intros [i b] s.
  destruct (train_step_result epoch i b s) as [m p md o cbe extra sg Hsg _ _].
  exact Hsg.
Qed.

(** The pass of an epoch, step after step. *)
Lemma after_steps_succ epoch k b (st : state) :
  train_loader epoch !! k = Some b ->
  steps_signal args epoch k st = Normal ->
  after_steps args epoch (S k) st =
    fst (train_step args epoch (k, b) (after_steps args epoch k st)) /\
  steps_signal args epoch (S k) st =
    snd (train_step args epoch (k, b) (after_steps args epoch k st)).
Proof.
  intros Hb Hk. unfold after_steps, steps_signal in *.
  pose proof (enumerate_lookup (train_loader epoch) 0 k b Hb) as He.
  fold (enumerate (train_loader epoch)) in He. cbn [Nat.add] in He.
  rewrite (take_S_r _ _ _ He), for_each_app.
  destruct (for_each (train_step args epoch) (take k (enumerate (train_loader epoch))) _)
    as [s sg]. cbn [fst snd] in *. subst sg. cbn [for_each].
  destruct (train_step args epoch (k, b) s) as [s' []]; split; reflexivity.
Qed.

Lemma after_steps_all epoch (st : state) :
  for_each (train_step args epoch) (enumerate (train_loader epoch))
           (set_curr_best_accuracy_epoch F64.zero st) =
  (after_steps args epoch (length (train_loader epoch)) st,
   steps_signal args epoch (length (train_loader epoch)) st).
Proof.
  unfold after_steps, steps_signal.
  assert (Hall : firstn (length (train_loader epoch)) (enumerate (train_loader epoch))
                 = enumerate (train_loader epoch)).
  { apply firstn_all2. unfold enumerate. rewrite length_combine, length_seq. lia. }
  rewrite Hall. destruct (for_each _ _ _); reflexivity.
Qed.

(** C7.  Within the training pass of an epoch, as long as the pass is under
    way, the step at the 0-indexed position [k] makes a validation round (one
    [model.eval()] and one forward pass per batch of the whole validation
    stream) exactly when [step_interval] divides the 1-indexed step counter
    [k + 1]; any other step makes none. *)
Theorem validation_every_step_interval epoch (st : state) (k : nat) (b : batch) :
  train_loader epoch !! k = Some b ->
  steps_signal args epoch k st = Normal ->
  let before := after_steps args epoch k st in
  let after := after_steps args epoch (S k) st in
  (calls is_model_eval after = S (calls is_model_eval before) <->
   (args_step_interval args | Z.of_nat k + 1)) /\
  (calls is_model_eval after = S (calls is_model_eval before) \/
   calls is_model_eval after = calls is_model_eval before /\
   calls is_model_forward after = calls is_model_forward before) /\
  (calls is_model_eval after = S (calls is_model_eval before) ->
   calls is_model_forward after =
   (length (valid_loader epoch k) + calls is_model_forward before)%nat) /\
  training_pass args epoch (set_curr_best_accuracy_epoch F64.zero st) =
    (after_steps args epoch (length (train_loader epoch)) st,
     steps_signal args epoch (length (train_loader epoch)) st).
Proof.
  intros Hb Hk. cbv zeta.
  destruct (after_steps_succ epoch k b st Hb Hk) as [-> _].
  destruct (train_step_validates epoch k b (after_steps args epoch k st))
    as (H1 & H2 & H3).
  split; [exact H1 | split; [exact H2 | split; [exact H3 | ]]].
  unfold training_pass, py_for. rewrite after_steps_all.
  pose proof (training_pass_eq_early epoch (set_curr_best_accuracy_epoch F64.zero st)) as Hbr.
  rewrite after_steps_all in Hbr. cbn [snd] in Hbr.
  destruct (steps_signal args epoch (length (train_loader epoch)) st);
    [reflexivity | congruence | reflexivity].
Qed.

(** C8.  A validation round leaves the parameters of the classifier and the
    state of the optimizer as they were, calls no optimizer step, and leaves
    the classifier in evaluation mode. *)
Theorem validation_round_keeps_parameters epoch i (st : state) :
  let st' := fst (validation_round epoch i st) in
  model st' = model st /\
  optimizer st' = optimizer st /\
  calls is_optimizer_step st' = calls is_optimizer_step st /\
  mode st' = Evaluation.
Proof.
  cbv zeta. pose proof (validation_round_result epoch i st) as Hr.
  destruct (round_calls epoch i st _ Hr) as (_ & _ & Ho & _).
  inversion Hr as [m cbe pr sv sg Hsg Hcbe Hpr Hsv Heq].
  rewrite <- Heq in Ho. cbn [fst] in *. auto.
Qed.

(** C2 (as amended).  In a validation round [torch.save] is called, once, if
    and only if the mean accuracy strictly exceeds [curr_best_accuracy_epoch]
    and the updated [curr_best_accuracy_epoch] exceeds
    [curr_best_accuracy - 0.001]; the call, when the file system takes it,
    leaves the state dict under [epoch<N>.ckpt].  When the mean does not
    exceed [curr_best_accuracy_epoch], nothing changes and nothing is
    written; when it does, [curr_best_accuracy_epoch] becomes the mean, also
    when the second test fails and nothing is written. *)
Theorem checkpoint_written_iff epoch mean (st : state) :
  let r := checkpoint epoch mean st in
  let improved := F64.gtb mean (curr_best_accuracy_epoch st) in
  let within :=
    F64.gtb (curr_best_accuracy_epoch (fst r))
            (F64.sub (curr_best_accuracy st) (F64.decimal 1 1000)) in
  (calls is_torch_save (fst r) = S (calls is_torch_save st) <->
   improved && within = true) /\
  (calls is_torch_save (fst r) = S (calls is_torch_save st) \/
   calls is_torch_save (fst r) = calls is_torch_save st /\
   fs (fst r) = fs st /\ snd r = Normal) /\
  (improved = false -> r = (st, Normal)) /\
  (improved = true -> curr_best_accuracy_epoch (fst r) = mean) /\
  (improved && within = true -> snd r = Normal ->
   fs (fst r) !! resolve (checkpoint_path (model_dir st) epoch) =
   Some (File (StateDict (model st)))).
Proof.
  cbv zeta.
  destruct (checkpoint_cases epoch mean st)
    as [(Hg & ->) | [(Hg & Hw & ->) | (Hg & Hw & ->)]]; rewrite Hg; cbn [fst snd andb].
  - repeat split; try discriminate; auto.
    intros H. exact (False_ind _ (n_Sn _ H)).
  - cbn [set_curr_best_accuracy_epoch curr_best_accuracy_epoch]. rewrite Hw.
    repeat split; try discriminate; auto.
    intros H. exact (False_ind _ (n_Sn _ H)).
  - destruct (torch_save_eq (checkpoint_path (model_dir st) epoch)
                (set_curr_best_accuracy_epoch mean st))
      as (m & sg & -> & Hsg & Hok & _).
    cbn [fst snd set_curr_best_accuracy_epoch curr_best_accuracy_epoch
         model_dir fs model trace] in *.
    rewrite Hw. unfold calls. cbn [trace List.filter is_torch_save length].
    repeat split; auto; try discriminate.
    intros _ Hn. rewrite (Hok Hn). apply lookup_insert_eq.
Qed.

(** Only [torch.save] can end a validation round by an exception, and then
    it is one of the file system. *)
Lemma validation_round_raises epoch i (st : state) e :
  snd (validation_round epoch i st) = Raised e ->
  e = IsADirectoryError \/ e = NotADirectoryError \/ e = FileNotFoundError.
Proof.
  rewrite validation_round_eq. cbv zeta.
  set (mean := Numpy.mean _). set (st2 := State _ _ _ _ _ _ _ _).
  destruct (checkpoint_cases epoch mean st2)
    as [(Hg & ->) | [(Hg & Hw & ->) | (Hg & Hw & ->)]]; cbn [snd];
    try discriminate.
  unfold torch_save, write_file. cbv zeta.
  destruct (fs _ !! resolve _) as [[|c]|];
    try (cbn [snd]; intros [= <-]; auto; fail);
    destruct (fs _ !! parent _) as [[|c']|]; cbn [snd];
    try discriminate; intros [= <-]; auto.
Qed.

(** C5 (as amended).  A validation file without records is fatal, but not
    in a validation round: the loader cannot be built, [train] ends on the
    [ValueError] of [DataLoader] before start-up and before any step, in the
    state and on the file system it started with.  A loader is built exactly
    when the file has a record (and the batch size is positive); every pass
    over it then yields at least one batch, so every validation round
    divides by a positive count, and no validation round ends on a
    [ZeroDivisionError]. *)
Theorem empty_validation_data_is_fatal (m : gmap string (node content)) :
  (valid_dataset = [] ->
   load_and_train args m = (initial args m, Failed ValueError)) /\
  (DataLoader valid_dataset = Ok tt <-> valid_dataset <> [] /\ 0 < batch_size) /\
  (DataLoader train_dataset = Ok tt -> DataLoader valid_dataset = Ok tt ->
   load_and_train args m = train args m) /\
  (DataLoader valid_dataset = Ok tt ->
   forall epoch i, (1 <= length (valid_loader epoch i))%nat) /\
  (forall epoch i (st : state),
     Numpy.mean (map accuracy (map (evaluate (model st)) (valid_loader epoch i))) =
     F64.div (Numpy.sum (map accuracy (map (evaluate (model st)) (valid_loader epoch i))))
             (F64.of_Z (Z.of_nat (length (valid_loader epoch i))))) /\
  (forall epoch i (st : state),
     snd (validation_round epoch i st) <> Raised ZeroDivisionError).
Proof.
  split; [ | split; [ | split; [ | split; [ | split]]]].
  - intros Hv. unfold load_and_train.
    destruct (DataLoader_cases train_dataset) as [(-> & _) | (-> & _)]; [ | reflexivity].
    rewrite Hv. reflexivity.
  - destruct (DataLoader_cases valid_dataset) as [(-> & H1 & H2) | (-> & H)].
    + split; auto.
    + split; [discriminate | ]. intros [H1 H2]. destruct H; [contradiction | lia].
  - intros Ht Hv. unfold load_and_train. rewrite Ht, Hv. reflexivity.
  - intros Hv epoch i.
    destruct (DataLoader_cases valid_dataset) as [(_ & H1 & _) | (Hr & _)];
      [ | congruence].
    pose proof (valid_loader_nonempty H1 epoch i) as Hne.
    destruct (valid_loader epoch i); [congruence | cbn [length]; lia].
  - intros epoch i st. unfold Numpy.mean. rewrite !length_map. reflexivity.
  - intros epoch i st H. apply validation_round_raises in H as [H|[H|H]]; discriminate.
Qed.

(** C9.  The four figures of a validation round are [np.mean] of the
    per-batch scores of its pass over the validation loader, one score per
    batch whatever the size of the batch; the mean accuracy is the value
    that line 126 compares.  [np.mean] makes additions that take in every
    score exactly once, and divides the sum by the number of scores; two
    batches of accuracies 0.9 and 0.7 give the float 0.8. *)
Theorem validation_summary_is_mean epoch i (st : state) :
  let vs := map (evaluate (model st)) (valid_loader epoch i) in
  let r := validation_round epoch i st in
  length vs = length (valid_loader epoch i) /\
  (snd r = Normal ->
   exists rest,
     trace (fst r) =
     print_progress (epoch + 1) (i + 1)
       (Summary (Numpy.mean (map loss vs)) (Numpy.mean (map accuracy vs))
                (Numpy.mean (map precision vs)) (Numpy.mean (map recall vs)))
       (curr_best_accuracy_epoch (fst r)) :: rest) /\
  curr_best_accuracy_epoch (fst r) =
    (if F64.gtb (Numpy.mean (map accuracy vs)) (curr_best_accuracy_epoch st)
     then Numpy.mean (map accuracy vs) else curr_best_accuracy_epoch st) /\
  (forall l, exists t,
     Numpy.mean l = F64.div (Numpy.value t) (F64.of_Z (Z.of_nat (length l))) /\
     Permutation (Numpy.items t) l) /\
  Numpy.mean [F64.decimal 9 10; F64.decimal 7 10] = F64.decimal 8 10.
Proof.
  cbv zeta. split; [apply length_map | ].
  split; [ | split; [ | split; [apply NumpyFacts.mean_additions | vm_compute; reflexivity]]].
  - rewrite validation_round_eq. cbv zeta.
    set (vs := map (evaluate (model st)) _). set (mean := Numpy.mean (map accuracy vs)).
    set (st2 := State _ _ _ _ _ _ _ _).
    destruct (checkpoint epoch mean st2) as [st3 sg]. destruct sg; cbn [fst snd];
      [ | discriminate | discriminate].
    intros _. eexists. reflexivity.
  - rewrite validation_round_eq. cbv zeta.
    set (vs := map (evaluate (model st)) _). set (mean := Numpy.mean (map accuracy vs)).
    set (st2 := State _ _ _ _ _ _ _ _).
    change (curr_best_accuracy_epoch st) with (curr_best_accuracy_epoch st2).
    destruct (checkpoint_cases epoch mean st2)
      as [(Hg & ->) | [(Hg & Hw & ->) | (Hg & Hw & ->)]]; rewrite Hg; cbn [fst];
      try reflexivity.
    destruct (torch_save_eq (checkpoint_path (model_dir st2) epoch)
                (set_curr_best_accuracy_epoch mean st2))
      as (m & sg & -> & _).
    destruct sg; reflexivity.
Qed.


(** *** The two running maxima *)

Lemma train_step_frame epoch ib (st : state) :
  let r := train_step args epoch ib st in
  model_dir (fst r) = model_dir st /\
  curr_best_accuracy (fst r) = curr_best_accuracy st /\
  (curr_best_accuracy_epoch (fst r) = curr_best_accuracy_epoch st \/
   F64.gtb (curr_best_accuracy_epoch (fst r)) (curr_best_accuracy_epoch st) = true) /\
  (forall path, In (torch_save_call path) (trace (fst r)) ->
     path = checkpoint_path (model_dir st) epoch \/
     In (torch_save_call path) (trace st)) /\
  snd r <> Break.
Proof.
  destruct ib as [i b]. cbv zeta.
  destruct (train_step_result epoch i b st) as [m p md o cbe extra sg Hsg Hcbe Hsv].
  cbn [fst snd model_dir curr_best_accuracy curr_best_accuracy_epoch trace].
  repeat split; auto.
  intros path Hin. apply in_app_or in Hin as [Hin|Hin]; auto.
Qed.

Lemma train_step_cbe_mono epoch ib (st : state) :
  F64.is_nan (curr_best_accuracy_epoch st) = false ->
  F64.is_nan (curr_best_accuracy_epoch (fst (train_step args epoch ib st))) = false /\
  F64.leb (curr_best_accuracy_epoch st)
          (curr_best_accuracy_epoch (fst (train_step args epoch ib st))) = true.
Proof.
  intros Hn. destruct (train_step_frame epoch ib st) as (_ & _ & [-> | Hg] & _).
  - split; auto. apply leb_refl; auto.
  - split; [apply (gtb_not_nan _ _ Hg) | apply gtb_leb; auto].
Qed.

Lemma training_pass_eq epoch (st : state) :
  training_pass args epoch st =
  for_each (train_step args epoch) (enumerate (train_loader epoch)) st.
Proof.
  unfold training_pass, py_for.
  pose proof (for_each_no_break (train_step args epoch)
                (enumerate (train_loader epoch))
                (fun x s => proj2 (proj2 (proj2 (proj2 (train_step_frame epoch x s)))))
                st) as Hb.
  destruct (for_each _ _ st) as [st' []]; cbn [snd] in Hb; congruence.
Qed.

Lemma steps_frame epoch (l : list (nat * batch)) (st : state) :
  let r := for_each (train_step args epoch) l st in
  model_dir (fst r) = model_dir st /\
  curr_best_accuracy (fst r) = curr_best_accuracy st /\
  (forall path, In (torch_save_call path) (trace (fst r)) ->
     path = checkpoint_path (model_dir st) epoch \/
     In (torch_save_call path) (trace st)).
Proof.
  cbv zeta.
  apply (for_each_inv (train_step args epoch)
           (fun s => model_dir s = model_dir st /\
                     curr_best_accuracy s = curr_best_accuracy st /\
                     (forall path, In (torch_save_call path) (trace s) ->
                        path = checkpoint_path (model_dir st) epoch \/
                        In (torch_save_call path) (trace st)))); [ | auto].
  intros x s (Hd & Hc & Ht).
  destruct (train_step_frame epoch x s) as (Hd' & Hc' & _ & Ht' & _).
  split; [congruence | split; [congruence | ]].
  intros path Hin. destruct (Ht' path Hin) as [Hp|Hp]; [left; congruence | auto].
Qed.

Lemma steps_cbe_no_nan epoch (l : list (nat * batch)) (st : state) :
  F64.is_nan (curr_best_accuracy_epoch st) = false ->
  F64.is_nan (curr_best_accuracy_epoch
                (fst (for_each (train_step args epoch) l st))) = false.
Proof.
  apply (for_each_inv (train_step args epoch)
           (fun s => F64.is_nan (curr_best_accuracy_epoch s) = false)).
  intros x s Hs. apply train_step_cbe_mono; auto.
Qed.

Lemma early_stopping_cases epoch (st : state) :
  (F64.gtb (curr_best_accuracy_epoch st) (curr_best_accuracy st) = true /\
   early_stopping args epoch st =
   (set_curr_best_accuracy (curr_best_accuracy_epoch st) st, Normal)) \/
  (F64.gtb (curr_best_accuracy_epoch st) (curr_best_accuracy st) = false /\
   args_min_epoch_num args - 1 <= Z.of_nat epoch /\
   early_stopping args epoch st =
   (emit (print_early_stop (curr_best_accuracy st)) st, Break)) \/
  (F64.gtb (curr_best_accuracy_epoch st) (curr_best_accuracy st) = false /\
   Z.of_nat epoch < args_min_epoch_num args - 1 /\
   early_stopping args epoch st = (st, Normal)).
Proof.
  unfold early_stopping.
  destruct (F64.gtb _ _); [left; auto | right].
  destruct (Z.leb_spec (args_min_epoch_num args - 1) (Z.of_nat epoch)); auto.
Qed.

Lemma epoch_body_eq epoch (st : state) :
  epoch_body args epoch st =
  match training_pass args epoch (set_curr_best_accuracy_epoch F64.zero st) with
  | (st2, Normal) =>
      early_stopping args epoch
        (emit scheduler_step_call
              (set_model (model st2) (scheduler_step (optimizer st2)) st2))
  | r => r
  end.
Proof. reflexivity. Qed.

Lemma epoch_body_frame epoch (st : state) :
  let r := epoch_body args epoch st in
  model_dir (fst r) = model_dir st /\
  (curr_best_accuracy (fst r) = curr_best_accuracy st \/
   F64.gtb (curr_best_accuracy (fst r)) (curr_best_accuracy st) = true) /\
  (forall path, In (torch_save_call path) (trace (fst r)) ->
     path = checkpoint_path (model_dir st) epoch \/
     In (torch_save_call path) (trace st)).
Proof.
  cbv zeta. rewrite epoch_body_eq, training_pass_eq.
  destruct (steps_frame epoch (enumerate (train_loader epoch))
              (set_curr_best_accuracy_epoch F64.zero st)) as (Hd & Hc & Ht).
  cbn [set_curr_best_accuracy_epoch model_dir curr_best_accuracy trace] in Hd, Hc, Ht.
  destruct (for_each _ _ _) as [st2 sg]. cbn [fst] in *.
  destruct sg; cbn [fst]; auto.
  set (st3 := emit scheduler_step_call _).
  assert (Hd3 : model_dir st3 = model_dir st) by exact Hd.
  assert (Hc3 : curr_best_accuracy st3 = curr_best_accuracy st) by exact Hc.
  assert (Ht3 : forall path, In (torch_save_call path) (trace st3) ->
                  path = checkpoint_path (model_dir st) epoch \/
                  In (torch_save_call path) (trace st)).
  { intros path [Hin|Hin]; [discriminate | auto]. }
  clearbody st3.
  destruct (early_stopping_cases epoch st3)
    as [(Hg & ->) | [(Hg & _ & ->) | (Hg & _ & ->)]]; cbn [fst].
  - cbn [set_curr_best_accuracy model_dir curr_best_accuracy trace].
    rewrite <- Hc3. split; [auto | split; [auto | exact Ht3]].
  - cbn [emit model_dir curr_best_accuracy trace].
    split; [auto | split; [auto | ]].
    intros path [Hin|Hin]; [discriminate | auto].
  - auto.
Qed.

Lemma epoch_body_cba_mono epoch (st : state) :
  F64.is_nan (curr_best_accuracy st) = false ->
  F64.is_nan (curr_best_accuracy (fst (epoch_body args epoch st))) = false /\
  F64.leb (curr_best_accuracy st)
          (curr_best_accuracy (fst (epoch_body args epoch st))) = true.
Proof.
  intros Hn. destruct (epoch_body_frame epoch st) as (_ & [-> | Hg] & _).
  - split; auto. apply leb_refl; auto.
  - split; [apply (gtb_not_nan _ _ Hg) | apply gtb_leb; auto].
Qed.


Lemma epochs_frame (l : list nat) (st : state) :
  let r := for_each (epoch_body args) l st in
  model_dir (fst r) = model_dir st /\
  (forall path, In (torch_save_call path) (trace (fst r)) ->
     (exists epoch, path = checkpoint_path (model_dir st) epoch) \/
     In (torch_save_call path) (trace st)).
Proof.
  cbv zeta.
  apply (for_each_inv (epoch_body args)
           (fun s => model_dir s = model_dir st /\
                     (forall path, In (torch_save_call path) (trace s) ->
                        (exists epoch, path = checkpoint_path (model_dir st) epoch) \/
                        In (torch_save_call path) (trace st)))); [ | auto].
  intros x s (Hd & Ht).
  destruct (epoch_body_frame x s) as (Hd' & _ & Ht').
  split; [congruence | ].
  intros path Hin. destruct (Ht' path Hin) as [Hp|Hp]; auto.
  left. exists x. congruence.
Qed.

Lemma enumerate_length {A} (l : list A) : length (enumerate l) = length l.
Proof. unfold enumerate. rewrite length_combine, length_seq. lia. Qed.

(** C3.  [curr_best_accuracy] is 0 when the epoch loop starts, and between
    any two moments of the run it has not decreased: the value after [n]
    epochs is at most the value after [n + k] epochs.  A training step never
    assigns it, and the assignment at the end of an epoch only replaces it by
    a strictly greater value. *)
Theorem curr_best_accuracy_monotone (st : state) (n k : nat) :
  curr_best_accuracy (after_epochs args 0 st) = F64.zero /\
  F64.leb (curr_best_accuracy (after_epochs args n st))
          (curr_best_accuracy (after_epochs args (n + k) st)) = true /\
  fst (epochs args st) =
    after_epochs args (Z.to_nat (args_max_epoch_num args)) st /\
  (forall epoch ib st',
     curr_best_accuracy (fst (train_step args epoch ib st')) =
     curr_best_accuracy st') /\
  (forall epoch st',
     curr_best_accuracy (fst (early_stopping args epoch st')) =
     curr_best_accuracy st' \/
     F64.gtb (curr_best_accuracy (fst (early_stopping args epoch st')))
             (curr_best_accuracy st') = true).
Proof.
  split; [reflexivity | ]. split; [ | split; [ | split]].
  - unfold after_epochs. rewrite firstn_add.
    apply (for_each_rel_prefix (epoch_body args)
             (fun s => F64.is_nan (curr_best_accuracy s) = false)
             (fun s s' => F64.leb (curr_best_accuracy s) (curr_best_accuracy s') = true)).
    + intros s Hs. apply leb_refl; auto.
    + intros a b c. apply leb_trans.
    + intros x s Hs. apply epoch_body_cba_mono; auto.
    + reflexivity.
  - unfold epochs, after_epochs, py_range.
    pose proof (firstn_all (seq 0 (Z.to_nat (args_max_epoch_num args)))) as Hall.
    rewrite length_seq in Hall. rewrite Hall. reflexivity.
  - intros epoch ib st'. apply train_step_frame.
  - intros epoch st'.
    destruct (early_stopping_cases epoch st')
      as [(Hg & ->) | [(Hg & _ & ->) | (Hg & _ & ->)]]; cbn [fst]; auto.
Qed.

(** C4.  [curr_best_accuracy_epoch] is 0 when the training pass of an epoch
    starts, whatever it was before, and within the epoch it has not decreased
    between any two moments: the value after [k] steps is at most the value
    after [k + j] steps, and the value with which the epoch ends is the one
    after the last step of the pass that started from 0.  A validation round
    leaves it as it is or replaces it by a mean that strictly exceeds it. *)
Theorem curr_best_accuracy_epoch_monotone epoch (st : state) (k j : nat) :
  curr_best_accuracy_epoch (after_steps args epoch 0 st) = F64.zero /\
  F64.leb (curr_best_accuracy_epoch (after_steps args epoch k st))
          (curr_best_accuracy_epoch (after_steps args epoch (k + j) st)) = true /\
  curr_best_accuracy_epoch (fst (epoch_body args epoch st)) =
    curr_best_accuracy_epoch (after_steps args epoch (length (train_loader epoch)) st) /\
  epoch_body args epoch st =
    epoch_body args epoch (set_curr_best_accuracy_epoch F64.zero st) /\
  fst (training_pass args epoch (set_curr_best_accuracy_epoch F64.zero st)) =
    after_steps args epoch (length (train_loader epoch)) st /\
  (forall e mean st',
     curr_best_accuracy_epoch (fst (checkpoint e mean st')) =
     curr_best_accuracy_epoch st' \/
     curr_best_accuracy_epoch (fst (checkpoint e mean st')) = mean /\
     F64.gtb mean (curr_best_accuracy_epoch st') = true).
Proof.
  split; [reflexivity | ]. split; [ | split; [ | split; [reflexivity | split]]].
  - unfold after_steps. rewrite firstn_add.
    apply (for_each_rel_prefix (train_step args epoch)
             (fun s => F64.is_nan (curr_best_accuracy_epoch s) = false)
             (fun s s' => F64.leb (curr_best_accuracy_epoch s)
                                  (curr_best_accuracy_epoch s') = true)).
    + intros s Hs. apply leb_refl; auto.
    + intros a b c. apply leb_trans.
    + intros x s Hs. apply train_step_cbe_mono; auto.
    + reflexivity.
  - rewrite epoch_body_eq, training_pass_eq, after_steps_all.
    destruct (steps_signal args epoch (length (train_loader epoch)) st);
      cbn [fst]; try reflexivity.
    destruct (early_stopping_cases epoch
                (emit scheduler_step_call
                   (set_model (model (after_steps args epoch (length (train_loader epoch)) st))
                      (scheduler_step
                         (optimizer (after_steps args epoch (length (train_loader epoch)) st)))
                      (after_steps args epoch (length (train_loader epoch)) st))))
      as [(_ & ->) | [(_ & _ & ->) | (_ & _ & ->)]]; reflexivity.
  - rewrite training_pass_eq. unfold after_steps.
    pose proof (firstn_all (enumerate (train_loader epoch))) as Hall.
    rewrite enumerate_length in Hall. rewrite Hall. reflexivity.
  - intros e mean st'.
    destruct (checkpoint_cases e mean st')
      as [(Hg & ->) | [(Hg & Hw & ->) | (Hg & Hw & ->)]]; cbn [fst]; auto.
    destruct (torch_save_eq (checkpoint_path (model_dir st') e)
                (set_curr_best_accuracy_epoch mean st'))
      as (m & sg & -> & _). cbn [fst curr_best_accuracy_epoch
                                  set_curr_best_accuracy_epoch]. auto.
Qed.


End TrainFacts.

Section RootFacts.
Context `{E : Externals}.

(** C10.  With [model_dir] exactly ["/"], start-up does nothing: the state,
    and with it the file system, is the one it was given, and [model_dir]
    stays ["/"]; every [torch.save] of the run then goes to ["/"] followed
    by the file name [epoch<N>.ckpt]. *)
Theorem root_model_dir_left_alone (mx mn si : Z) (m : gmap string (node content)) :
  let a := Build_Args "/" mx mn si in
  startup (initial a m) = (initial a m, Normal) /\
  fs (initial a m) = m /\
  model_dir (initial a m) = "/" /\
  (forall epoch : nat,
     checkpoint_path (model_dir (initial a m)) epoch =
     "/" +:+ ("epoch" +:+ pretty epoch +:+ ".ckpt")) /\
  (forall path,
     In (torch_save_call path) (trace (fst (train a m))) ->
     exists epoch : nat, path = "/" +:+ ("epoch" +:+ pretty epoch +:+ ".ckpt")).
Proof.
  cbv zeta. split; [reflexivity | ]. split; [reflexivity | ].
  split; [reflexivity | ]. split; [reflexivity | ].
  intros path Hin.
  assert (Hst : startup (initial (Build_Args "/" mx mn si) m) =
                (initial (Build_Args "/" mx mn si) m, Normal)) by reflexivity.
  unfold train in Hin. rewrite Hst in Hin. unfold epochs in Hin.
  destruct (epochs_frame (Build_Args "/" mx mn si)
              (py_range (args_max_epoch_num (Build_Args "/" mx mn si)))
              (set_curr_best_accuracy F64.zero (initial (Build_Args "/" mx mn si) m)))
    as (_ & Ht).
  destruct (for_each _ _ _) as [st2 sg]. cbn [fst] in Ht.
  assert (Hin' : In (torch_save_call path) (trace st2))
    by (destruct sg; exact Hin).
  destruct (Ht path Hin') as [[epoch Hp]|[]].
  exists epoch. exact Hp.
Qed.

End RootFacts.

(** ** The definitions on concrete runs *)

(** The model directory of the specification's example: the two stale
    checkpoints go, the note stays. *)
Example startup_stale_dir :
  map_to_list (fs (fst (@startup Toy.X (@initial Toy.X (Toy.args "/m") (Toy.stale_dir Toy.X))))) =
  [("/m/notes.txt", File Stale); ("/m", Dir); ("/", Dir)] /\
  snd (@startup Toy.X (@initial Toy.X (Toy.args "/m") (Toy.stale_dir Toy.X))) = Normal.
Proof. split; vm_compute; reflexivity. Qed.

(** A name that the pattern of the code matches and the pattern of the
    specification does not. *)
Example model_regex_optional_t :
  stale_name "epoch3.ckp" = true /\
  spec_checkpoint_name "epoch3.ckp" = false /\
  stale_name "epoch3.ckpt.bak" = true /\
  stale_name "notes.txt" = false /\
  stale_name "epoch.ckpt" = false.
Proof. repeat split; vm_compute; reflexivity. Qed.

(** [\d] takes the decimal digits of every script: the name [epoch], the
    Arabic-Indic digit three (U+0663, the bytes D9 A3 in UTF-8) and [.ckpt] is
    matched, as is a name with a full-width and a mathematical digit; a
    superscript two is no decimal digit, and bytes that are no UTF-8 are no
    digit either. *)
Example model_regex_unicode_digits :
  stale_name ("epoch" +:+ Unicode.bytes [217; 163]%N +:+ ".ckpt") = true /\
  Unicode.fsdecode ("epoch" +:+ Unicode.bytes [217; 163]%N +:+ ".ckpt") =
    (Unicode.codes "epoch" ++ [1635] ++ Unicode.codes ".ckpt")%N /\
  stale_name ("epoch" +:+ Unicode.bytes [239; 188; 145; 240; 157; 159; 142]%N
                      +:+ ".ckpt") = true /\
  stale_name ("epoch" +:+ Unicode.bytes [194; 178]%N +:+ ".ckpt") = false /\
  stale_name ("epoch" +:+ Unicode.bytes [163]%N +:+ ".ckpt") = false /\
  Unicode.fsdecode (Unicode.bytes [224; 160; 65; 195]%N) = [56544; 56480; 65; 56515]%N.
Proof. repeat split; vm_compute; reflexivity. Qed.

(** [os.fsencode] on a few names: the digit three of Arabic script and a
    mathematical digit go back to their bytes, as do two bytes that were no
    UTF-8; a surrogate that stands for no byte cannot be encoded. *)
Example fsencode_examples :
  Unicode.fsencode [1635]%N = Some (Unicode.bytes [217; 163]%N) /\
  Unicode.fsencode [120782]%N = Some (Unicode.bytes [240; 157; 159; 142]%N) /\
  Unicode.fsencode [56544; 65; 56515]%N = Some (Unicode.bytes [224; 65; 195]%N) /\
  Unicode.fsencode [65; 55296]%N = None.
Proof. repeat split; vm_compute; reflexivity. Qed.

(** [os.path.abspath] on a few paths. *)
Example abspath_examples :
  abspath "/work" "m" = "/work/m" /\
  abspath "/work" "/m/" = "/m" /\
  abspath "/work" "m/../x//y/" = "/work/x/y" /\
  abspath "/work" "//" = "//" /\
  abspath "/work" "//m" = "//m" /\
  resolve "//m" = "/m" /\
  resolve "//m/epoch3.ckpt" = "/m/epoch3.ckpt".
Proof. repeat split; reflexivity. Qed.

(** A stale checkpoint whose digit is not ASCII goes as well, and a directory
    under such a name ends start-up. *)
Example startup_unicode_digit :
  map_to_list (fs (fst (@startup Toy.X (@initial Toy.X (Toy.args "/m")
                                          (Cases.unicode_dir Toy.X))))) =
  [("/m/notes.txt", File Stale); ("/m", Dir); ("/", Dir)] /\
  snd (@startup Toy.X (@initial Toy.X (Toy.args "/m") (Cases.unicode_dir Toy.X))) = Normal /\
  @matching_entries_are_files Toy.X (Cases.unicode_subdir Toy.X) "/m" = false /\
  snd (@startup Toy.X (@initial Toy.X (Toy.args "/m") (Cases.unicode_subdir Toy.X))) =
  Raised IsADirectoryError.
Proof. repeat split; vm_compute; reflexivity. Qed.

(** The model directory under the spelling [//m], which [abspath] keeps: it
    is the directory [/m], and its stale checkpoints go. *)
Example startup_double_slash :
  map_to_list (fs (fst (@startup Toy.X (@initial Toy.X (Toy.args "//m") (Toy.stale_dir Toy.X))))) =
  [("/m/notes.txt", File Stale); ("/m", Dir); ("/", Dir)] /\
  model_dir (fst (@startup Toy.X (@initial Toy.X (Toy.args "//m") (Toy.stale_dir Toy.X)))) =
  "//m/" /\
  snd (@startup Toy.X (@initial Toy.X (Toy.args "//m") (Toy.stale_dir Toy.X))) = Normal.
Proof. repeat split; vm_compute; reflexivity. Qed.

(** A run with three epochs at most, two at least, and a validation mean of
    0.8 in every round: the second epoch does not improve, the run stops. *)
Example steady_run :
  snd (@train Toy.X (Toy.args "/m") (Toy.stale_dir Toy.X)) = StoppedEarly /\
  curr_best_accuracy (fst (@train Toy.X (Toy.args "/m") (Toy.stale_dir Toy.X))) =
  F64.decimal 8 10 /\
  calls is_torch_save (fst (@train Toy.X (Toy.args "/m") (Toy.stale_dir Toy.X))) = 2%nat /\
  map fst (map_to_list (fs (fst (@train Toy.X (Toy.args "/m") (Toy.stale_dir Toy.X))))) =
  ["/m/epoch1.ckpt"; "/m/epoch0.ckpt"; "/m/notes.txt"; "/m"; "/"].
Proof. repeat split; vm_compute; reflexivity. Qed.


(** C2: with a best accuracy of 0.9 so far, a first round of mean 0.5 fails
    the test of line 128, so nothing is saved, and yet
    [curr_best_accuracy_epoch] has moved from 0 to 0.5. *)
Lemma checkpoint_updates_without_write :
  let st := set_curr_best_accuracy (F64.decimal 9 10)
              (fst (@startup Toy.X (@initial Toy.X (Toy.args "/m") (Toy.stale_dir Toy.X)))) in
  let r := checkpoint 0 (F64.decimal 5 10) st in
  F64.gtb (F64.decimal 5 10) (curr_best_accuracy_epoch st)
    && F64.gtb (curr_best_accuracy_epoch (fst r))
               (F64.sub (curr_best_accuracy st) (F64.decimal 1 1000)) = false /\
  calls is_torch_save (fst r) = calls is_torch_save st /\
  fs (fst r) = fs st /\
  curr_best_accuracy_epoch st = F64.zero /\
  curr_best_accuracy_epoch (fst r) = F64.decimal 5 10 /\
  F64.gtb (curr_best_accuracy_epoch (fst r)) (curr_best_accuracy_epoch st) = true /\
  fst r <> st.
Proof.
  cbv zeta. repeat split; try (vm_compute; reflexivity).
  intros H. apply (f_equal curr_best_accuracy_epoch) in H.
  vm_compute in H. discriminate H.
Qed.

(** C5: with a validation file that has no record, [train] ends on the
    [ValueError] of the loader: not on a division by zero, and not in a
    validation round, for none was made, nor any training step, and start-up
    has not run, the stale checkpoints being still there. *)
Lemma empty_validation_file_fails_at_loading :
  let r := @load_and_train Toy.X0 (Toy.args "/m") (Toy.stale_dir Toy.X0) in
  @valid_dataset Toy.X0 = [] /\
  (forall epoch i, @valid_loader Toy.X0 epoch i = []) /\
  snd r = Failed ValueError /\
  snd r <> Failed ZeroDivisionError /\
  calls is_model_eval (fst r) = 0%nat /\
  calls is_optimizer_step (fst r) = 0%nat /\
  fs (fst r) !! "/m/epoch3.ckpt" = Some (File Stale).
Proof.
  cbv zeta. split; [reflexivity | split; [reflexivity | ]].
  split; [vm_compute; reflexivity | split; [vm_compute; discriminate | ]].
  repeat split; vm_compute; reflexivity.
Qed.

(** C5: with a record or more in the validation file the loader is built,
    and a pass has a batch per record here, the batch size being 1. *)
Example steady_loader_built :
  @DataLoader Toy.X (@valid_dataset Toy.X) = Ok tt /\
  length (@valid_loader Toy.X 0 0) = 2%nat /\
  snd (@load_and_train Toy.X (Toy.args "/m") (Toy.stale_dir Toy.X)) = StoppedEarly /\
  batch_sampler 2 [] [1; 2; 3; 4; 5]%nat = [[1; 2]; [3; 4]; [5]]%nat.
Proof. repeat split; vm_compute; reflexivity. Qed.


(** C7, on the second step of a pass of five steps with
    [step_interval = 2]: it makes the first validation round of the pass. *)
Lemma validation_every_step_interval_witness :
  let a := Cases.args_with "/m" 3 2 2 in
  let st := fst (@startup Cases.X5 (@initial Cases.X5 a (Toy.stale_dir Cases.X5))) in
  @train_loader Cases.X5 0 !! 1%nat = Some (Toy.acc 0) /\
  @steps_signal Cases.X5 a 0 1 st = Normal /\
  (args_step_interval a | Z.of_nat 1 + 1) /\
  calls is_model_eval (@after_steps Cases.X5 a 0 1 st) = 0%nat /\
  calls is_model_eval (@after_steps Cases.X5 a 0 2 st) = 1%nat.
Proof.
  intros a st.
  assert (H1 : @train_loader Cases.X5 0 !! 1%nat = Some (Toy.acc 0))
    by (vm_compute; reflexivity).
  assert (H2 : @steps_signal Cases.X5 a 0 1 st = Normal) by (vm_compute; reflexivity).
  assert (H3 : (args_step_interval a | Z.of_nat 1 + 1)) by (exists 1; reflexivity).
  assert (H4 : calls is_model_eval (@after_steps Cases.X5 a 0 1 st) = 0%nat)
    by (vm_compute; reflexivity).
  split; [exact H1 | split; [exact H2 | split; [exact H3 | split; [exact H4 | ]]]].
  destruct (@validation_every_step_interval Cases.X5 a 0 st 1 (Toy.acc 0) H1 H2)
    as (Hiff & _).
  rewrite (proj2 Hiff H3), H4. reflexivity.
Defined.

(** C9: the progress line of the first validation round of the steady run
    carries the float 0.8 as the mean of the accuracies 0.9 and 0.7 of its
    two batches. *)
Example steady_round_mean :
  exists s rest,
    trace (fst (@validation_round Toy.X 0 0
                  (fst (@startup Toy.X (@initial Toy.X (Toy.args "/m")
                                          (Toy.stale_dir Toy.X)))))) =
    print_progress 1 1 s (F64.decimal 8 10) :: rest /\
    mean_accuracy s = F64.decimal 8 10 /\
    map accuracy (@valid_loader Toy.X 0 0) = [F64.decimal 9 10; F64.decimal 7 10].
Proof. eexists _, _. split; [vm_compute; reflexivity | split; vm_compute; reflexivity]. Qed.


(** * Further properties of the code *)

(** ** More on the pattern of stale checkpoints *)

Section PatternFacts.







(** X1.  The pattern of line 43, used with [match], accepts exactly the
    names that, decoded, start with [epoch], one or more decimal digits of
    any script and [.ckp]: the final [t] is optional and anything may follow,
    so a [str] that is accepted stays accepted whatever is appended to it.
    Among them is every name in bytes that reads [epoch], ASCII digits and
    [.ckp], whatever its remaining bytes. *)
Theorem stale_pattern_accepts (n : string) :
  (stale_name n = true <->
   exists ds rest,
     Unicode.fsdecode n =
       Unicode.codes "epoch" ++ ds ++ Unicode.codes ".ckp" ++ rest /\
     ds <> [] /\ forallb Unicode.isdecimal ds = true) /\
  (forall ds rest,
     ds <> EmptyString /\ all_digits ds = true ->
     stale_name ("epoch" +:+ ds +:+ ".ckp" +:+ rest) = true) /\
  (forall w suffix,
     Regex.re_match model_regex w = true ->
     Regex.re_match model_regex (w ++ suffix) = true).
Proof.
  split; [apply model_regex_match | split].
  - intros ds rest [Hne Hd]. apply stale_name_ascii; assumption.
  - intros w suffix. apply re_match_app.
Qed.


End PatternFacts.

(** ** More on start-up *)

Section MakedirsFacts.
Context {C : Type}.
Implicit Types m : gmap string (node C).

Lemma makedirs_succeeds m p :
  p <> EmptyString -> m !! resolve p = None ->
  existsb (is_file m) (ancestors (resolve p)) = false ->
  exists m', makedirs m p = Ok m'.
Proof.
  intros Hp Hm Ha. unfold makedirs, exists_. cbv zeta.
  destruct (String.eqb_spec (resolve p) "") as [Hr|_];
    [apply resolve_nil_inv in Hr; contradiction | ].
  rewrite Hm, Ha. eauto.
Qed.

(** What [os.makedirs] leaves: the directory and its ancestors are
    directories, what was there is still there, and whatever is new is a
    directory. *)
Lemma makedirs_result m spelling m' :
  makedirs m spelling = Ok m' ->
  m' !! resolve spelling = Some Dir /\
  (forall a, In a (ancestors (resolve spelling)) -> m' !! a = Some Dir) /\
  (forall q, m' !! q = m !! q \/ (m !! q = None /\ m' !! q = Some Dir)).
Proof.
  unfold makedirs. cbv zeta. set (p := resolve spelling).
  destruct (String.eqb p ""); [discriminate | ].
  unfold exists_. fold p. destruct (m !! p) eqn:Hp; [discriminate | ].
  destruct (existsb (is_file m) (ancestors p)) eqn:Hf; [discriminate | ].
  intros [= <-].
  assert (Hfiles : forall a, In a (ancestors p) -> is_file m a = false).
  { intros a Ha. destruct (is_file m a) eqn:Hfa; auto.
    assert (existsb (is_file m) (ancestors p) = true)
      by (apply existsb_exists; eauto). congruence. }
  clear Hf. induction (ancestors p) as [|a l IH]; cbn [foldr].
  - split; [apply lookup_insert_eq | split; [intros a [] | ]].
    intros q. destruct (String.eqb_spec p q) as [<-|Hne].
    + right. split; [exact Hp | apply lookup_insert_eq].
    + left. apply lookup_insert_ne; auto.
  - destruct IH as (IHp & IHa & IHq); [intros a' Ha'; apply Hfiles; right; auto | ].
    set (m1 := foldr _ _ l) in *.
    destruct (m1 !! a) as [x|] eqn:Hm1.
    + split; [exact IHp | split; [ | exact IHq]].
      intros a' [<-|Ha']; [ | auto].
      destruct (IHq a) as [Heq|[_ Hd]]; [ | congruence].
      rewrite Hm1 in Heq. specialize (Hfiles a (or_introl eq_refl)).
      unfold is_file in Hfiles. rewrite <- Heq in Hfiles.
      destruct x; [exact Hm1 | discriminate].
    + split; [ | split].
      * destruct (String.eqb_spec a p) as [->|Hne]; [congruence | ].
        rewrite lookup_insert_ne; auto.
      * intros a' [<-|Ha']; [apply lookup_insert_eq | ].
        destruct (String.eqb_spec a a') as [<-|Hne]; [apply lookup_insert_eq | ].
        rewrite lookup_insert_ne; auto.
      * intros q. destruct (String.eqb_spec a q) as [<-|Hne].
        -- right. split; [ | apply lookup_insert_eq].
           destruct (IHq a) as [Heq|[Hn _]]; [congruence | exact Hn].
        -- rewrite lookup_insert_ne; auto.
Qed.

End MakedirsFacts.

Section StartupMore.
Context `{E : Externals}.
Variable args : Args.




(** X3.  When the normalised model directory does not exist, is not the
    empty path, and has no regular file among its ancestors, start-up creates
    it together with its missing ancestors and deletes nothing: every path
    that existed is unchanged and every new path is a directory. *)
Theorem startup_creates_missing_dir (m : gmap string (node content)) :
  let dir := normalized_model_dir args in
  let d := resolve dir in
  args_model_dir args <> "/" ->
  dir <> EmptyString ->
  m !! d = None ->
  existsb (is_file m) (ancestors d) = false ->
  exists st',
    startup (initial args m) = (st', Normal) /\
    model_dir st' = dir +:+ "/" /\
    fs st' !! d = Some Dir /\
    (forall a, In a (ancestors d) -> fs st' !! a = Some Dir) /\
    (forall q, fs st' !! q = m !! q \/ (m !! q = None /\ fs st' !! q = Some Dir)).
Proof.
  intros dir d Hne Hd Hm Ha.
  destruct (makedirs_succeeds m dir Hd Hm Ha) as [m' Hmk].
  destruct (startup_missing_dir args m m' Hne Hm Hmk) as [-> _].
  destruct (makedirs_result m dir m' Hmk) as (H1 & H2 & H3).
  eexists. split; [reflexivity | ]. cbn [model_dir fs set_model_dir set_fs]. auto.
Qed.


(** X5.  The guard of line 44 tests the spelling ["/"] only.  A [model_dir]
    of another spelling that normalises to the root is stripped to the empty
    path, and start-up ends on the [FileNotFoundError] of [os.makedirs]; a
    [model_dir] that is a regular file ends it on the [NotADirectoryError] of
    [os.listdir].  In both cases [train] ends there and the file system is
    the one it was given. *)
Theorem startup_fails_without_touching (m : gmap string (node content)) :
  let d := normalized_model_dir args in
  args_model_dir args <> "/" ->
  (d = EmptyString /\ m !! resolve d = None) \/
  (exists c, m !! resolve d = Some (File c)) ->
  let e := match m !! resolve d with
           | Some (File _) => NotADirectoryError
           | _ => FileNotFoundError
           end in
  startup (initial args m) = (set_model_dir d (initial args m), Raised e) /\
  train args m = (set_model_dir d (initial args m), Failed e) /\
  fs (fst (train args m)) = m.
Proof.
  intros d Hne Hcase e.
  assert (Hstart : startup (initial args m) =
                   (set_model_dir d (initial args m), Raised e)).
  { unfold startup. cbn [model_dir initial].
    destruct (String.eqb_spec (args_model_dir args) "/") as [|_]; [contradiction | ].
    cbn [negb]. fold (normalized_model_dir args). fold d.
    cbn [fs set_model_dir model_dir]. change (fs (initial args m)) with m.
    unfold exists_, e. destruct Hcase as [[Hd Hm]|[c Hm]]; rewrite Hm; cbn [negb].
    - unfold makedirs. rewrite Hd. reflexivity.
    - unfold listdir. rewrite Hm. reflexivity. }
  split; [exact Hstart | ].
  unfold train. rewrite Hstart. split; reflexivity.
Qed.

End StartupMore.

(** ** More on loops *)

Section LoopsIn.
Context {S A : Type}.
Variable body : A -> S -> S * signal.

(** As [for_each_inv], for a body that keeps the property on the elements of
    the list only. *)
Lemma for_each_inv_in (P : S -> Prop) (l : list A) :
  (forall x st, In x l -> P st -> P (fst (body x st))) ->
  forall st, P st -> P (fst (for_each body l st)).
Proof.
  induction l as [|x l IH]; intros Hbody st Hst; simpl; [exact Hst | ].
  pose proof (Hbody x st (or_introl eq_refl) Hst) as Hx.
  destruct (body x st) as [st' []]; simpl in *; [ | exact Hx | exact Hx].
  apply IH; [ | exact Hx]. intros y s Hy. apply Hbody. right; exact Hy.
Qed.

(** A loop whose body ends normally on every element ends normally. *)
Lemma for_each_normal_in (P : S -> Prop) (l : list A) :
  (forall x st, In x l -> P st ->
                snd (body x st) = Normal /\ P (fst (body x st))) ->
  forall st, P st ->
    snd (for_each body l st) = Normal /\ P (fst (for_each body l st)).
Proof.
  induction l as [|x l IH]; intros Hbody st Hst; simpl; [auto | ].
  destruct (Hbody x st (or_introl eq_refl) Hst) as [Hn Hx].
  destruct (body x st) as [st' sg]; simpl in *. subst sg.
  apply IH; [ | exact Hx]. intros y s Hy. apply Hbody. right; exact Hy.
Qed.

End LoopsIn.

Lemma enumerate_in {A} (l : list A) i x :
  In (i, x) (enumerate l) -> (i < length l)%nat.
Proof.
  unfold enumerate. intros H. apply in_combine_l in H. apply in_seq in H. lia.
Qed.

(** ** More on the training loop *)

Section RunFacts.
Context `{E : Externals}.
Variable args : Args.

(** The calls of a kind that neither an update nor a validation round makes
    are as many after a training step as before it. *)
Lemma train_step_calls_other (kind : call -> bool) epoch ib (st : state) :
  kind optimizer_step_call = false -> kind model_train = false ->
  kind model_eval = false -> kind model_forward = false ->
  (forall p, kind (torch_save_call p) = false) ->
  (forall e i s b, kind (print_progress e i s b) = false) ->
  calls kind (fst (train_step args epoch ib st)) = calls kind st.
Proof.
  intros Ho Ht He Hf Hs Hp. destruct ib as [i b].
  destruct (train_step_cases args epoch i b st)
    as [(_ & ->) | [(_ & _ & ->) | (_ & _ & ->)]]; cbn [fst];
    try (apply update_calls; auto).
  pose proof (validation_round_result epoch i (update b st)) as Hr.
  inversion Hr as [m cbe pr sv sg Hsg Hcbe Hpr Hsv Heq]. clear Hr Heq.
  rewrite <- (update_calls kind b st Ho Ht). unfold calls. cbn [fst trace].
  rewrite !List.filter_app, !length_app, filter_repeat_forward, Hf.
  cbn [List.filter]. rewrite He.
  destruct Hpr as [->|(s & b0 & ->)], Hsv as [->| ->]; cbn [List.filter length];
    rewrite ?Hs, ?Hp; reflexivity.
Qed.

(** The file system after a validation round: as before, or with the
    checkpoint of the epoch holding the state dict of the classifier. *)
Lemma validation_round_fs epoch i (st : state) :
  fs (fst (validation_round epoch i st)) = fs st \/
  fs (fst (validation_round epoch i st)) =
  <[resolve (checkpoint_path (model_dir st) epoch) := File (StateDict (model st))]> (fs st).
Proof.
  rewrite validation_round_eq. cbv zeta.
  set (mean := Numpy.mean _). set (st2 := State _ _ _ _ _ _ _ _).
  destruct (checkpoint_cases epoch mean st2)
    as [(Hg & ->) | [(Hg & Hw & ->) | (Hg & Hw & ->)]]; cbn [fst]; auto.
  destruct (torch_save_eq (checkpoint_path (model_dir st2) epoch)
              (set_curr_best_accuracy_epoch mean st2))
    as (m & sg & -> & Hsg & Hok & Hko).
  destruct sg as [| |e]; cbn [fst emit fs]; [ | congruence | ].
  - right. rewrite Hok; reflexivity.
  - left. rewrite Hko; [reflexivity | discriminate].
Qed.

Lemma train_step_fs epoch ib (st : state) :
  fs (fst (train_step args epoch ib st)) = fs st \/
  exists p, fs (fst (train_step args epoch ib st)) =
            <[resolve (checkpoint_path (model_dir st) epoch) := File (StateDict p)]> (fs st).
Proof.
  destruct ib as [i b].
  destruct (train_step_cases args epoch i b st)
    as [(_ & ->) | [(_ & _ & ->) | (_ & _ & ->)]]; cbn [fst];
    try (left; rewrite update_eq; reflexivity).
  destruct (validation_round_fs epoch i (update b st)) as [H|H]; rewrite H;
    rewrite update_eq; cbn [fs model_dir model]; eauto.
Qed.

Lemma train_step_only_checkpoints st0 n epoch ib (s : state) :
  (epoch < n)%nat -> only_checkpoints st0 n s ->
  only_checkpoints st0 n (fst (train_step args epoch ib s)).
Proof.
  intros Hlt [Hd Hfs].
  destruct (train_step_frame args epoch ib s) as (Hd' & _).
  split; [congruence | ]. intros p.
  destruct (train_step_fs epoch ib s) as [-> | [θ ->]]; [apply Hfs | ].
  rewrite Hd.
  destruct (String.eqb_spec (resolve (checkpoint_path (model_dir st0) epoch)) p) as [<-|Hne].
  - right. exists epoch, θ. split; [exact Hlt | split; [reflexivity | ]].
    apply lookup_insert_eq.
  - rewrite lookup_insert_ne by exact Hne. apply Hfs.
Qed.

Lemma epoch_body_only_checkpoints st0 n epoch (s : state) :
  (epoch < n)%nat -> only_checkpoints st0 n s ->
  only_checkpoints st0 n (fst (epoch_body args epoch s)).
Proof.
  intros Hlt Hs. rewrite epoch_body_eq, training_pass_eq.
  assert (Hpass : only_checkpoints st0 n
            (fst (for_each (train_step args epoch) (enumerate (train_loader epoch))
                    (set_curr_best_accuracy_epoch F64.zero s)))).
  { apply (for_each_inv (train_step args epoch) (only_checkpoints st0 n)).
    - intros x s'. apply train_step_only_checkpoints; auto.
    - exact Hs. }
  destruct (for_each _ _ _) as [st2 sg]. cbn [fst] in Hpass.
  destruct sg; cbn [fst]; auto.
  destruct (early_stopping_cases args epoch
              (emit scheduler_step_call
                 (set_model (model st2) (scheduler_step (optimizer st2)) st2)))
    as [(_ & ->) | [(_ & _ & ->) | (_ & _ & ->)]]; cbn [fst]; exact Hpass.
Qed.

(** X8.  The epoch loop changes the file system at the checkpoints only:
    every path is as it was when the loop started, or it is the file that
    [model_dir] followed by [epoch<N>.ckpt] names, for an epoch [N] below
    [max_epoch_num], and holds a saved state dict; and every [torch.save]
    that the loop calls goes to such a path.  [model_dir] itself never
    changes. *)
Theorem run_writes_only_checkpoints (st : state) :
  let r := epochs args st in
  model_dir (fst r) = model_dir st /\
  (forall p, fs (fst r) !! p = fs st !! p \/
             exists epoch θ, (epoch < Z.to_nat (args_max_epoch_num args))%nat /\
               p = resolve (model_dir st +:+ checkpoint_name epoch) /\
               fs (fst r) !! p = Some (File (StateDict θ))) /\
  (forall path, In (torch_save_call path) (trace (fst r)) ->
     In (torch_save_call path) (trace st) \/
     exists epoch, (epoch < Z.to_nat (args_max_epoch_num args))%nat /\
                   path = model_dir st +:+ checkpoint_name epoch).
Proof.
  cbv zeta. unfold epochs, py_range.
  set (n := Z.to_nat (args_max_epoch_num args)).
  set (st0 := set_curr_best_accuracy F64.zero st).
  assert (H1 : only_checkpoints st0 n (fst (for_each (epoch_body args) (seq 0 n) st0))).
  { apply (for_each_inv_in (epoch_body args) (only_checkpoints st0 n)).
    - intros x s Hx. apply epoch_body_only_checkpoints. apply in_seq in Hx. lia.
    - split; auto. }
  assert (H2 : forall path,
             In (torch_save_call path)
                (trace (fst (for_each (epoch_body args) (seq 0 n) st0))) ->
             In (torch_save_call path) (trace st) \/
             exists epoch, (epoch < n)%nat /\
                           path = model_dir st +:+ checkpoint_name epoch).
  { apply (for_each_inv_in (epoch_body args)
             (fun s => model_dir s = model_dir st /\
                forall path, In (torch_save_call path) (trace s) ->
                  In (torch_save_call path) (trace st) \/
                  exists epoch, (epoch < n)%nat /\
                                path = model_dir st +:+ checkpoint_name epoch)).
    - intros x s Hx (Hd & Ht).
      destruct (epoch_body_frame args x s) as (Hd' & _ & Ht').
      split; [congruence | ]. intros path Hin.
      destruct (Ht' path Hin) as [->|Hold]; [ | auto].
      right. exists x. apply in_seq in Hx. split; [lia | ]. rewrite Hd. reflexivity.
    - split; auto. }
  destruct H1 as [Hd Hfs]. split; [exact Hd | split; [exact Hfs | exact H2]].
Qed.

End RunFacts.

Section EpochCounts.
Context `{E : Externals}.
Variable args : Args.

Lemma training_pass_calls_other (kind : call -> bool) epoch (st : state) :
  kind optimizer_step_call = false -> kind model_train = false ->
  kind model_eval = false -> kind model_forward = false ->
  (forall p, kind (torch_save_call p) = false) ->
  (forall e i s b, kind (print_progress e i s b) = false) ->
  calls kind (fst (training_pass args epoch st)) = calls kind st.
Proof.
  intros Ho Ht He Hf Hs Hp. rewrite training_pass_eq.
  apply (for_each_inv (train_step args epoch) (fun s => calls kind s = calls kind st));
    [ | reflexivity].
  intros x s Hx. rewrite train_step_calls_other; auto.
Qed.

Lemma training_pass_signal epoch (st : state) :
  snd (training_pass args epoch st) <> Break.
Proof.
  rewrite training_pass_eq. apply for_each_no_break.
  intros x s. apply train_step_frame.
Qed.

(** An epoch that ends without exception has made one scheduler step; one
    that ends by an exception has made none; one that leaves the loop is at
    least the epoch [min_epoch_num - 1]. *)
Lemma epoch_body_scheduler epoch (st : state) :
  match snd (epoch_body args epoch st) with
  | Normal =>
      calls is_scheduler_step (fst (epoch_body args epoch st)) =
      S (calls is_scheduler_step st)
  | Break =>
      calls is_scheduler_step (fst (epoch_body args epoch st)) =
      S (calls is_scheduler_step st) /\
      args_min_epoch_num args - 1 <= Z.of_nat epoch
  | Raised _ =>
      calls is_scheduler_step (fst (epoch_body args epoch st)) =
      calls is_scheduler_step st
  end.
Proof.
  rewrite epoch_body_eq.
  pose proof (training_pass_calls_other is_scheduler_step epoch
                (set_curr_best_accuracy_epoch F64.zero st)
                eq_refl eq_refl eq_refl eq_refl (fun _ => eq_refl)
                (fun _ _ _ _ => eq_refl)) as Hc.
  pose proof (training_pass_signal epoch (set_curr_best_accuracy_epoch F64.zero st)) as Hs.
  destruct (training_pass _ _ _) as [st2 sg]. cbn [fst snd] in *.
  change (calls is_scheduler_step (set_curr_best_accuracy_epoch F64.zero st))
    with (calls is_scheduler_step st) in Hc.
  destruct sg; [ | congruence | exact Hc].
  destruct (early_stopping_cases args epoch
              (emit scheduler_step_call
                 (set_model (model st2) (scheduler_step (optimizer st2)) st2)))
    as [(_ & ->) | [(_ & Hm & ->) | (_ & _ & ->)]]; cbn [fst snd];
    unfold calls in *; cbn [trace emit set_model set_curr_best_accuracy
                            List.filter is_scheduler_step length];
    rewrite ?Hc; auto.
Qed.

Lemma epochs_scheduler n : forall k (st : state),
  match snd (for_each (epoch_body args) (seq k n) st) with
  | Normal =>
      calls is_scheduler_step (fst (for_each (epoch_body args) (seq k n) st)) =
      (n + calls is_scheduler_step st)%nat
  | Break =>
      exists j, (j < n)%nat /\
        calls is_scheduler_step (fst (for_each (epoch_body args) (seq k n) st)) =
        (S j + calls is_scheduler_step st)%nat /\
        args_min_epoch_num args - 1 <= Z.of_nat (k + j)
  | Raised _ =>
      exists j, (j < n)%nat /\
        calls is_scheduler_step (fst (for_each (epoch_body args) (seq k n) st)) =
        (j + calls is_scheduler_step st)%nat
  end.
Proof.
  induction n as [|n IH]; intros k st; cbn [seq for_each]; [reflexivity | ].
  pose proof (epoch_body_scheduler k st) as Hb.
  destruct (epoch_body args k st) as [st1 sg]. cbn [fst snd] in Hb.
  destruct sg as [| |e]; cbn [fst snd].
  - specialize (IH (S k) st1).
    destruct (snd (for_each (epoch_body args) (seq (S k) n) st1)) as [| |e].
    + rewrite IH, Hb. lia.
    + destruct IH as (j & Hj & Hc & Hm). exists (S j).
      split; [lia | split; [rewrite Hc, Hb; lia | ]].
      replace (k + S j)%nat with (S k + j)%nat by lia. exact Hm.
    + destruct IH as (j & Hj & Hc). exists (S j).
      split; [lia | rewrite Hc, Hb; lia].
  - destruct Hb as [Hc Hm]. exists 0%nat.
    split; [lia | split; [rewrite Hc; reflexivity | ]].
    replace (k + 0)%nat with k by lia. exact Hm.
  - exists 0%nat. split; [lia | rewrite Hb; reflexivity].
Qed.

(** X7.  The number of epochs that a run completes, counted by its scheduler
    steps: [max_epoch_num] when the loop runs to its end; at least one, at
    least [min_epoch_num] and at most [max_epoch_num] when it stops early;
    fewer than [max_epoch_num] when an exception ends it. *)
Theorem epochs_between_min_and_max (st : state) :
  let r := epochs args st in
  let done := (calls is_scheduler_step (fst r) - calls is_scheduler_step st)%nat in
  (calls is_scheduler_step st <= calls is_scheduler_step (fst r))%nat /\
  match snd r with
  | Normal => done = Z.to_nat (args_max_epoch_num args)
  | Break =>
      (1 <= done <= Z.to_nat (args_max_epoch_num args))%nat /\
      args_min_epoch_num args <= Z.of_nat done
  | Raised _ => (done < Z.to_nat (args_max_epoch_num args))%nat
  end.
Proof.
  cbv zeta. unfold epochs, py_range.
  pose proof (epochs_scheduler (Z.to_nat (args_max_epoch_num args)) 0
                (set_curr_best_accuracy F64.zero st)) as H.
  change (calls is_scheduler_step (set_curr_best_accuracy F64.zero st))
    with (calls is_scheduler_step st) in H.
  destruct (snd (for_each _ _ _)) as [| |e].
  - rewrite H. lia.
  - destruct H as (j & Hj & -> & Hm). cbn [Nat.add] in Hm. lia.
  - destruct H as (j & Hj & ->). lia.
Qed.

(** X6.  With [step_interval = 0], at least one epoch to run and a first
    training pass that is not empty, the run ends on the
    [ZeroDivisionError] of line 96 in its first step: after one optimizer
    step, with no validation round, no scheduler step and the file system as
    it was. *)
Theorem zero_step_interval_raises (st : state) :
  args_step_interval args = 0 ->
  0 < args_max_epoch_num args ->
  train_loader 0 <> [] ->
  let r := epochs args st in
  snd r = Raised ZeroDivisionError /\
  calls is_optimizer_step (fst r) = S (calls is_optimizer_step st) /\
  calls is_model_eval (fst r) = calls is_model_eval st /\
  calls is_scheduler_step (fst r) = calls is_scheduler_step st /\
  fs (fst r) = fs st.
Proof.
  intros Hk Hmax Hl. cbv zeta. unfold epochs, py_range.
  destruct (Z.to_nat (args_max_epoch_num args)) as [|n] eqn:Hn; [lia | ].
  destruct (train_loader 0) as [|b l] eqn:Hb; [congruence | ].
  cbn [seq for_each]. rewrite epoch_body_eq. unfold training_pass, py_for.
  rewrite Hb. unfold enumerate. cbn [length seq combine for_each].
  destruct (train_step_cases args 0 0 b
              (set_curr_best_accuracy_epoch F64.zero
                 (set_curr_best_accuracy F64.zero st)))
    as [(_ & ->) | [(Hne & _) | (Hne & _)]]; [ | contradiction | contradiction].
  cbn [fst snd]. rewrite update_eq. unfold calls.
  cbn [trace fs set_curr_best_accuracy_epoch set_curr_best_accuracy List.filter
       is_optimizer_step is_model_eval is_scheduler_step length].
  repeat split; reflexivity.
Qed.

End EpochCounts.

(** The multiples of [k] up to [a + 1] are those up to [a], and [a + 1] when
    [k] divides it. *)
Lemma div_succ_multiple (a k : Z) :
  0 <= a -> k <> 0 ->
  (a + 1) / Z.abs k = a / Z.abs k + (if (a + 1) mod k =? 0 then 1 else 0).
Proof.
  intros Ha Hk.
  assert (Hpos : 0 < Z.abs k) by lia.
  assert (Hdiv : (a + 1) mod k = 0 <-> (a + 1) mod Z.abs k = 0).
  { rewrite !Z.mod_divide by lia. symmetry. apply Z.divide_abs_l. }
  pose proof (Z.div_mod a (Z.abs k) ltac:(lia)) as Hdm.
  pose proof (Z.mod_pos_bound a (Z.abs k) Hpos) as Hb.
  destruct (Z.eqb_spec ((a + 1) mod k) 0) as [H0|H0].
  - apply Hdiv in H0. symmetry. apply Z.div_unique with (r := 0); [lia | ].
    apply Z.mod_divide in H0; [ | lia]. destruct H0 as [q Hq].
    assert (a mod Z.abs k = Z.abs k - 1).
    { assert (Hr : (a mod Z.abs k + 1) mod Z.abs k = 0).
      { rewrite <- (Z.add_mod_idemp_l a 1) in * by lia.
        replace ((a mod Z.abs k + 1) mod Z.abs k) with ((a + 1) mod Z.abs k)
          by (rewrite <- Z.add_mod_idemp_l by lia; reflexivity).
        apply Z.mod_divide; [lia | exists q; exact Hq]. }
      destruct (Z.eq_dec (a mod Z.abs k + 1) (Z.abs k)) as [|Hne]; [lia | ].
      rewrite Z.mod_small in Hr by lia. lia. }
    nia.
  - symmetry. apply Z.div_unique with (r := a mod Z.abs k + 1); [ | lia].
    assert (a mod Z.abs k + 1 <> Z.abs k).
    { intros Heq. apply H0, Hdiv. apply Z.mod_divide; [lia | ].
      exists (a / Z.abs k + 1). nia. }
    lia.
Qed.

Section PassCounts.
Context `{E : Externals}.
Variable args : Args.

Lemma train_step_counts epoch i b (st : state) :
  args_step_interval args <> 0 ->
  calls is_optimizer_step (fst (train_step args epoch (i, b) st)) =
  S (calls is_optimizer_step st) /\
  Z.of_nat (calls is_model_eval (fst (train_step args epoch (i, b) st))) =
  Z.of_nat (calls is_model_eval st) +
  (if (Z.of_nat i + 1) mod args_step_interval args =? 0 then 1 else 0).
Proof.
  intros Hk.
  assert (Hup : calls is_optimizer_step (update b st) = S (calls is_optimizer_step st))
    by (rewrite update_eq; reflexivity).
  destruct (train_step_cases args epoch i b st)
    as [(H0 & _) | [(_ & Hm & ->) | (_ & Hm & ->)]]; [contradiction | | ]; cbn [fst].
  - destruct (round_calls epoch i (update b st) _
                (validation_round_result epoch i (update b st)))
      as (He & _ & Ho & _).
    rewrite Ho, He, Hup, update_calls, Hm by reflexivity. cbn. split; [reflexivity | lia].
  - rewrite Hup, update_calls by reflexivity.
    destruct (Z.eqb_spec ((Z.of_nat i + 1) mod args_step_interval args) 0);
      [contradiction | ]. split; [reflexivity | lia].
Qed.

Lemma steps_counts epoch (l : list batch) : forall a (st st' : state),
  args_step_interval args <> 0 ->
  for_each (train_step args epoch) (combine (seq a (length l)) l) st = (st', Normal) ->
  calls is_optimizer_step st' = (length l + calls is_optimizer_step st)%nat /\
  Z.of_nat (calls is_model_eval st') =
  Z.of_nat (calls is_model_eval st)
  + Z.of_nat (a + length l) / Z.abs (args_step_interval args)
  - Z.of_nat a / Z.abs (args_step_interval args).
Proof.
  induction l as [|b l IH]; intros a st st' Hk Hrun; cbn [length seq combine for_each] in *.
  - injection Hrun as <-. rewrite Nat.add_0_r. split; [reflexivity | lia].
  - destruct (train_step_counts epoch a b st Hk) as [Ho He].
    destruct (train_step args epoch (a, b) st) as [s1 sg]. cbn [fst] in Ho, He.
    destruct sg; try discriminate Hrun.
    destruct (IH (S a) s1 st' Hk Hrun) as [Ho' He'].
    split; [rewrite Ho', Ho; lia | ].
    rewrite He', He.
    pose proof (div_succ_multiple (Z.of_nat a) (args_step_interval args)
                  ltac:(lia) Hk) as Hd.
    replace (Z.of_nat (S a + length l)) with (Z.of_nat (a + S (length l))) by lia.
    replace (Z.of_nat (S a)) with (Z.of_nat a + 1) by lia. lia.
Qed.

(** X13.  In a training pass that runs to its end, with a [step_interval]
    other than 0, every batch gets one optimizer step and the number of
    validation rounds is the number of batches divided by the absolute value
    of [step_interval], rounded down. *)
Theorem validation_rounds_per_epoch epoch (st st' : state) :
  args_step_interval args <> 0 ->
  training_pass args epoch st = (st', Normal) ->
  calls is_optimizer_step st' =
  (length (train_loader epoch) + calls is_optimizer_step st)%nat /\
  Z.of_nat (calls is_model_eval st') =
  Z.of_nat (calls is_model_eval st)
  + Z.of_nat (length (train_loader epoch)) / Z.abs (args_step_interval args).
Proof.
  intros Hk Hrun. rewrite training_pass_eq in Hrun. unfold enumerate in Hrun.
  destruct (steps_counts epoch (train_loader epoch) 0 st st' Hk Hrun) as [Ho He].
  split; [exact Ho | ]. rewrite He. cbn [Nat.add]. rewrite Z.div_0_l by lia. lia.
Qed.

Lemma quiet_pass epoch (st : state) :
  Z.of_nat (length (train_loader epoch)) < args_step_interval args ->
  snd (training_pass args epoch st) = Normal /\
  quiet st (fst (training_pass args epoch st)).
Proof.
  intros Hlen. rewrite training_pass_eq.
  apply (for_each_normal_in (train_step args epoch) (quiet st));
    [ | repeat split].
  intros [i b] s Hin (H1 & H2 & H3 & H4 & H5 & H6 & H7).
  apply enumerate_in in Hin.
  destruct (train_step_cases args epoch i b s)
    as [(H0 & _) | [(_ & Hm & _) | (_ & _ & ->)]]; [lia | | ].
  - rewrite Z.mod_small in Hm by lia. lia.
  - cbn [fst snd]. split; [reflexivity | ].
    unfold quiet. rewrite !update_calls by reflexivity. rewrite update_eq.
    cbn [fs model_dir curr_best_accuracy curr_best_accuracy_epoch]. auto 10.
Qed.

Lemma quiet_epoch epoch (st : state) :
  (forall e, Z.of_nat (length (train_loader e)) < args_step_interval args) ->
  curr_best_accuracy st = F64.zero ->
  snd (epoch_body args epoch st) =
    (if args_min_epoch_num args - 1 <=? Z.of_nat epoch then Break else Normal) /\
  fs (fst (epoch_body args epoch st)) = fs st /\
  curr_best_accuracy (fst (epoch_body args epoch st)) = F64.zero /\
  calls is_model_eval (fst (epoch_body args epoch st)) = calls is_model_eval st /\
  calls is_torch_save (fst (epoch_body args epoch st)) = calls is_torch_save st /\
  calls is_scheduler_step (fst (epoch_body args epoch st)) =
    S (calls is_scheduler_step st).
Proof.
  intros Hlen Hz. rewrite epoch_body_eq.
  destruct (quiet_pass epoch (set_curr_best_accuracy_epoch F64.zero st) (Hlen epoch))
    as (Hn & H1 & H2 & H3 & H4 & H5 & H6 & H7).
  destruct (training_pass _ _ _) as [st2 sg]. cbn [fst snd] in *. subst sg.
  cbn [set_curr_best_accuracy_epoch fs model_dir curr_best_accuracy
       curr_best_accuracy_epoch] in *.
  change (calls is_model_eval (set_curr_best_accuracy_epoch F64.zero st))
    with (calls is_model_eval st) in H5.
  change (calls is_torch_save (set_curr_best_accuracy_epoch F64.zero st))
    with (calls is_torch_save st) in H6.
  change (calls is_scheduler_step (set_curr_best_accuracy_epoch F64.zero st))
    with (calls is_scheduler_step st) in H7.
  unfold early_stopping.
  cbn [emit set_model curr_best_accuracy curr_best_accuracy_epoch].
  rewrite H4, H3, Hz. change (F64.gtb F64.zero F64.zero) with false.
  destruct (args_min_epoch_num args - 1 <=? Z.of_nat epoch); cbn [fst snd];
    unfold calls in *;
    cbn [emit set_model fs curr_best_accuracy trace List.filter is_model_eval
         is_torch_save is_scheduler_step length];
    rewrite ?H3, ?H5, ?H6, ?H7, ?Hz; auto 10.
Qed.

Lemma quiet_epochs n : forall k (st : state),
  (forall e, Z.of_nat (length (train_loader e)) < args_step_interval args) ->
  curr_best_accuracy st = F64.zero ->
  (k <= Z.to_nat (args_min_epoch_num args - 1))%nat ->
  let r := for_each (epoch_body args) (seq k n) st in
  let stop := Z.to_nat (args_min_epoch_num args - 1) in
  snd r = (if (stop <? k + n)%nat then Break else Normal) /\
  fs (fst r) = fs st /\
  curr_best_accuracy (fst r) = F64.zero /\
  calls is_model_eval (fst r) = calls is_model_eval st /\
  calls is_torch_save (fst r) = calls is_torch_save st /\
  calls is_scheduler_step (fst r) =
    ((if (stop <? k + n)%nat then S stop - k else n) + calls is_scheduler_step st)%nat.
Proof.
  induction n as [|n IH]; intros k st Hlen Hz Hk; cbv zeta; cbn [seq for_each].
  - destruct (Nat.ltb_spec (Z.to_nat (args_min_epoch_num args - 1)) (k + 0));
      [lia | ]. cbn [fst snd]. auto 10.
  - destruct (quiet_epoch k st Hlen Hz) as (Hs & H1 & H2 & H3 & H4 & H5).
    destruct (epoch_body args k st) as [s1 sg]. cbn [fst snd] in *. subst sg.
    destruct (Z.leb_spec (args_min_epoch_num args - 1) (Z.of_nat k)) as [Hle|Hgt].
    + assert (Hstop : Z.to_nat (args_min_epoch_num args - 1) = k) by lia.
      destruct (Nat.ltb_spec (Z.to_nat (args_min_epoch_num args - 1)) (k + S n));
        [ | lia]. cbn [fst snd].
      repeat split; auto. rewrite H5, Hstop. lia.
    + destruct (IH (S k) s1 Hlen H2 ltac:(lia)) as (Hs' & H1' & H2' & H3' & H4' & H5').
      replace (S k + n)%nat with (k + S n)%nat in * by lia.
      rewrite Hs'. repeat split; try congruence.
      rewrite H5', H5.
      destruct (Nat.ltb_spec (Z.to_nat (args_min_epoch_num args - 1)) (k + S n)); lia.
Qed.

(** X12.  When [step_interval] exceeds the number of batches of every
    training pass, no validation round is ever made: nothing is saved, the
    file system stays as it is, [curr_best_accuracy] stays 0, and the run
    (with at least one epoch to run and [min_epoch_num <= max_epoch_num])
    stops early after the larger of [min_epoch_num] and 1 epochs. *)
Theorem no_validation_when_interval_exceeds_pass (st : state) :
  (forall e, Z.of_nat (length (train_loader e)) < args_step_interval args) ->
  0 < args_max_epoch_num args ->
  args_min_epoch_num args <= args_max_epoch_num args ->
  let r := epochs args st in
  snd r = Break /\
  fs (fst r) = fs st /\
  curr_best_accuracy (fst r) = F64.zero /\
  calls is_model_eval (fst r) = calls is_model_eval st /\
  calls is_torch_save (fst r) = calls is_torch_save st /\
  calls is_scheduler_step (fst r) =
    (Z.to_nat (Z.max 1 (args_min_epoch_num args)) + calls is_scheduler_step st)%nat.
Proof.
  intros Hlen Hmax Hmin. cbv zeta. unfold epochs, py_range.
  destruct (quiet_epochs (Z.to_nat (args_max_epoch_num args)) 0
              (set_curr_best_accuracy F64.zero st) Hlen eq_refl ltac:(lia))
    as (Hs & H1 & H2 & H3 & H4 & H5).
  cbn [Nat.add] in Hs, H5.
  destruct (Nat.ltb_spec (Z.to_nat (args_min_epoch_num args - 1))
              (Z.to_nat (args_max_epoch_num args))); [ | lia].
  repeat split; auto. rewrite H5.
  change (calls is_scheduler_step (set_curr_best_accuracy F64.zero st))
    with (calls is_scheduler_step st). lia.
Qed.

End PassCounts.

(** ** More on the order of binary64 values *)

Lemma gtb_trans x y z : F64.gtb x y = true -> F64.gtb y z = true -> F64.gtb x z = true.
Proof.
  unfold F64.gtb, SFltb.
  destruct x as [sx|sx| |sx mx ex], y as [sy|sy| |sy my ey], z as [sz|sz| |sz mz ez];
    rewrite ?SFcompare_finite; simpl; try congruence; auto;
    try (destruct sx; simpl; try congruence; auto);
    try (destruct sy; simpl; try congruence; auto);
    try (destruct sz; simpl; try congruence; auto); lexc_solve.
Qed.

(** What exceeds a non-negative value exceeds [0 - 0.001]. *)
Lemma gtb_minus_tolerance x y :
  F64.leb F64.zero y = true -> F64.gtb x y = true ->
  F64.gtb x (F64.sub F64.zero (F64.decimal 1 1000)) = true.
Proof.
  change (F64.sub F64.zero (F64.decimal 1 1000))
    with (S754_finite true 4611686018427388 (-62)).
  unfold F64.leb, F64.gtb, F64.zero, SFleb, SFltb.
  destruct y as [sy|sy| |sy my ey], x as [sx|sx| |sx mx ex];
    rewrite ?SFcompare_finite; simpl; try congruence;
    try (destruct sy; simpl; try congruence);
    try (destruct sx; simpl; congruence).
Qed.

Section GateFacts.
Context `{E : Externals}.
Variable args : Args.

Lemma checkpoint_saves epoch mean (st : state) :
  F64.gtb mean (curr_best_accuracy_epoch st) = true ->
  F64.gtb mean (F64.sub (curr_best_accuracy st) (F64.decimal 1 1000)) = true ->
  calls is_torch_save (fst (checkpoint epoch mean st)) = S (calls is_torch_save st) /\
  curr_best_accuracy_epoch (fst (checkpoint epoch mean st)) = mean /\
  (snd (checkpoint epoch mean st) = Normal ->
   fs (fst (checkpoint epoch mean st)) !! resolve (checkpoint_path (model_dir st) epoch) =
   Some (File (StateDict (model st)))).
Proof.
  intros Hg Hw.
  destruct (checkpoint_cases epoch mean st)
    as [(Hg' & _) | [(_ & Hw' & _) | (_ & _ & ->)]]; try congruence.
  destruct (torch_save_eq (checkpoint_path (model_dir st) epoch)
              (set_curr_best_accuracy_epoch mean st))
    as (m & sg & -> & Hsg & Hok & _).
  cbn [fst snd]. unfold calls.
  cbn [trace set_curr_best_accuracy_epoch curr_best_accuracy_epoch fs model
       List.filter is_torch_save length] in *.
  split; [reflexivity | split; [reflexivity | ]].
  intros Hn. rewrite (Hok Hn). apply lookup_insert_eq.
Qed.

(** X10.  While [curr_best_accuracy] still has its initial value 0, as in
    the whole first epoch, every validation round whose mean exceeds a
    non-negative [curr_best_accuracy_epoch] calls [torch.save]: the test of
    line 128 cannot fail there. *)
Theorem first_improvements_are_saved epoch mean (st : state) :
  curr_best_accuracy st = F64.zero ->
  F64.leb F64.zero (curr_best_accuracy_epoch st) = true ->
  F64.gtb mean (curr_best_accuracy_epoch st) = true ->
  calls is_torch_save (fst (checkpoint epoch mean st)) = S (calls is_torch_save st) /\
  curr_best_accuracy_epoch (fst (checkpoint epoch mean st)) = mean /\
  (snd (checkpoint epoch mean st) = Normal ->
   fs (fst (checkpoint epoch mean st)) !! resolve (checkpoint_path (model_dir st) epoch) =
   Some (File (StateDict (model st)))).
Proof.
  intros Hz Hpos Hg. apply checkpoint_saves; [exact Hg | ].
  rewrite Hz. eapply gtb_minus_tolerance; eauto.
Qed.

(** X15.  Once [curr_best_accuracy_epoch] exceeds
    [curr_best_accuracy - 0.001], every later round of the epoch that
    improves on it calls [torch.save] as well: the checkpoint of the epoch
    then follows the best round of the epoch. *)
Theorem improvement_within_band_is_saved epoch mean (st : state) :
  F64.gtb (curr_best_accuracy_epoch st)
          (F64.sub (curr_best_accuracy st) (F64.decimal 1 1000)) = true ->
  F64.gtb mean (curr_best_accuracy_epoch st) = true ->
  calls is_torch_save (fst (checkpoint epoch mean st)) = S (calls is_torch_save st) /\
  curr_best_accuracy_epoch (fst (checkpoint epoch mean st)) = mean /\
  (snd (checkpoint epoch mean st) = Normal ->
   fs (fst (checkpoint epoch mean st)) !! resolve (checkpoint_path (model_dir st) epoch) =
   Some (File (StateDict (model st)))).
Proof.
  intros Hband Hg. apply checkpoint_saves; [exact Hg | ].
  eapply gtb_trans; eauto.
Qed.

(** X11.  Whatever the validation scores are (NaN and negative values
    included), neither best accuracy is ever NaN or negative: after any
    number of epochs for [curr_best_accuracy], after any number of steps of
    an epoch for [curr_best_accuracy_epoch]; a NaN mean changes nothing and
    saves nothing. *)
Theorem best_accuracies_are_numbers (st : state) (n epoch k : nat) :
  (F64.is_nan (curr_best_accuracy (after_epochs args n st)) = false /\
   F64.leb F64.zero (curr_best_accuracy (after_epochs args n st)) = true) /\
  (F64.is_nan (curr_best_accuracy_epoch (after_steps args epoch k st)) = false /\
   F64.leb F64.zero (curr_best_accuracy_epoch (after_steps args epoch k st)) = true) /\
  (forall e s, checkpoint e S754_nan s = (s, Normal)).
Proof.
  split; [ | split].
  - unfold after_epochs.
    apply (for_each_rel (epoch_body args)
             (fun s => F64.is_nan (curr_best_accuracy s) = false)
             (fun s s' => F64.leb (curr_best_accuracy s) (curr_best_accuracy s') = true)).
    + intros s Hs. apply leb_refl; auto.
    + intros a b c. apply leb_trans.
    + intros x s Hs. apply epoch_body_cba_mono; auto.
    + reflexivity.
  - unfold after_steps.
    apply (for_each_rel (train_step args epoch)
             (fun s => F64.is_nan (curr_best_accuracy_epoch s) = false)
             (fun s s' => F64.leb (curr_best_accuracy_epoch s)
                                  (curr_best_accuracy_epoch s') = true)).
    + intros s Hs. apply leb_refl; auto.
    + intros a b c. apply leb_trans.
    + intros x s Hs. apply train_step_cbe_mono; auto.
    + reflexivity.
  - intros e s. unfold checkpoint.
    destruct (nan_compares_false (curr_best_accuracy_epoch s)) as (Hn & _).
    rewrite Hn. reflexivity.
Qed.

(** X14.  When an epoch ends without exception, [curr_best_accuracy] is the
    larger of its value before the epoch and the best accuracy of the epoch:
    it is at least both. *)
Theorem epoch_end_takes_best epoch (st : state) :
  F64.is_nan (curr_best_accuracy st) = false ->
  snd (epoch_body args epoch st) = Normal \/ snd (epoch_body args epoch st) = Break ->
  let st' := fst (epoch_body args epoch st) in
  curr_best_accuracy st' =
    best_of (curr_best_accuracy_epoch st') (curr_best_accuracy st) /\
  F64.leb (curr_best_accuracy_epoch st') (curr_best_accuracy st') = true /\
  F64.leb (curr_best_accuracy st) (curr_best_accuracy st') = true.
Proof.
  intros Hnan Hsig. cbv zeta.
  destruct (epoch_body_cba_mono args epoch st Hnan) as [_ Hmono].
  assert (Hsigp : snd (training_pass args epoch
                         (set_curr_best_accuracy_epoch F64.zero st)) <> Break)
    by apply training_pass_signal.
  assert (Hcbe : F64.is_nan (curr_best_accuracy_epoch
                   (fst (training_pass args epoch
                           (set_curr_best_accuracy_epoch F64.zero st)))) = false).
  { rewrite training_pass_eq. apply steps_cbe_no_nan. reflexivity. }
  assert (Hcba : curr_best_accuracy
                   (fst (training_pass args epoch
                           (set_curr_best_accuracy_epoch F64.zero st)))
                 = curr_best_accuracy st).
  { rewrite training_pass_eq.
    apply (steps_frame args epoch (enumerate (train_loader epoch))
             (set_curr_best_accuracy_epoch F64.zero st)). }
  split; [ | split; [ | exact Hmono]]; clear Hmono.
  - rewrite epoch_body_eq in *.
    destruct (training_pass _ _ _) as [st2 sg]. cbn [fst snd] in *.
    destruct sg as [| |e]; [ | congruence | destruct Hsig; discriminate].
    unfold best_of.
    destruct (early_stopping_cases args epoch
                (emit scheduler_step_call
                   (set_model (model st2) (scheduler_step (optimizer st2)) st2)))
      as [(Hg & ->) | [(Hg & _ & ->) | (Hg & _ & ->)]];
      cbn [fst emit set_model set_curr_best_accuracy curr_best_accuracy
           curr_best_accuracy_epoch] in *;
      rewrite <- Hcba, Hg; reflexivity.
  - rewrite epoch_body_eq in *.
    destruct (training_pass _ _ _) as [st2 sg]. cbn [fst snd] in *.
    destruct sg as [| |e]; [ | congruence | destruct Hsig; discriminate].
    destruct (early_stopping_cases args epoch
                (emit scheduler_step_call
                   (set_model (model st2) (scheduler_step (optimizer st2)) st2)))
      as [(Hg & ->) | [(Hg & _ & ->) | (Hg & _ & ->)]];
      cbn [fst emit set_model set_curr_best_accuracy curr_best_accuracy
           curr_best_accuracy_epoch] in *.
    + apply leb_refl; exact Hcbe.
    + apply not_gtb_leb; [exact Hcbe | rewrite Hcba; exact Hnan | exact Hg].
    + apply not_gtb_leb; [exact Hcbe | rewrite Hcba; exact Hnan | exact Hg].
Qed.

End GateFacts.

(** ** The further properties on concrete inputs *)

(** Spellings of the root other than ["/"], and a plain path. *)
Example normalized_model_dir_examples :
  @normalized_model_dir Toy.X (Toy.args "//") = "" /\
  @normalized_model_dir Toy.X (Toy.args "/.") = "" /\
  @normalized_model_dir Toy.X (Toy.args "/m/..") = "" /\
  @normalized_model_dir Toy.X (Toy.args "/m//x/") = "/m/x" /\
  @normalized_model_dir Toy.X (Toy.args "m") = "/work/m".
Proof. repeat split; reflexivity. Qed.



(** X3, on a file system that holds the root only. *)
Lemma startup_creates_missing_dir_witness :
  let a := Toy.args "/a/b" in
  let m := Cases.bare_root Toy.X in
  args_model_dir a <> "/" /\
  @normalized_model_dir Toy.X a <> EmptyString /\
  m !! resolve (@normalized_model_dir Toy.X a) = None /\
  existsb (is_file m) (ancestors (resolve (@normalized_model_dir Toy.X a))) = false /\
  exists st',
    @startup Toy.X (@initial Toy.X a m) = (st', Normal) /\
    model_dir st' = "/a/b/" /\
    fs st' !! "/a/b" = Some Dir /\
    fs st' !! "/a" = Some Dir /\
    fs st' !! "/" = Some Dir.
Proof.
  intros a m.
  assert (H1 : args_model_dir a <> "/") by discriminate.
  assert (H2 : @normalized_model_dir Toy.X a <> EmptyString)
    by (vm_compute; discriminate).
  assert (H3 : m !! resolve (@normalized_model_dir Toy.X a) = None) by (vm_compute; reflexivity).
  assert (H4 : existsb (is_file m) (ancestors (resolve (@normalized_model_dir Toy.X a))) = false)
    by (vm_compute; reflexivity).
  split; [exact H1 | split; [exact H2 | split; [exact H3 | split; [exact H4 | ]]]].
  destruct (@startup_creates_missing_dir Toy.X a m H1 H2 H3 H4)
    as (st' & Hs & Hd & Hdir & Hanc & _).
  exists st'. split; [exact Hs | split; [exact Hd | split; [exact Hdir | ]]].
  split; apply Hanc; vm_compute; auto.
Defined.


(** X5, on the spelling ["/."] of the root. *)
Lemma startup_fails_without_touching_witness :
  let a := Toy.args "/." in
  let m := Cases.bare_root Toy.X in
  let d := @normalized_model_dir Toy.X a in
  args_model_dir a <> "/" /\
  ((d = EmptyString /\ m !! resolve d = None) \/
   (exists c, m !! resolve d = Some (File c))) /\
  @startup Toy.X (@initial Toy.X a m) =
    (set_model_dir "" (@initial Toy.X a m), Raised FileNotFoundError) /\
  @train Toy.X a m = (set_model_dir "" (@initial Toy.X a m), Failed FileNotFoundError) /\
  fs (fst (@train Toy.X a m)) = m.
Proof.
  intros a m d.
  assert (H1 : args_model_dir a <> "/") by discriminate.
  assert (H2 : (d = EmptyString /\ m !! resolve d = None) \/
               (exists c, m !! resolve d = Some (File c)))
    by (left; split; vm_compute; reflexivity).
  split; [exact H1 | split; [exact H2 | ]].
  exact (@startup_fails_without_touching Toy.X a m H1 H2).
Defined.

(** X6, on the steady world with [step_interval = 0]. *)
Lemma zero_step_interval_raises_witness :
  let a := Cases.args_with "/m" 3 2 0 in
  let st := fst (@startup Toy.X (@initial Toy.X a (Toy.stale_dir Toy.X))) in
  args_step_interval a = 0 /\
  0 < args_max_epoch_num a /\
  @train_loader Toy.X 0 <> [] /\
  snd (@epochs Toy.X a st) = Raised ZeroDivisionError /\
  calls is_optimizer_step (fst (@epochs Toy.X a st)) = S (calls is_optimizer_step st) /\
  calls is_model_eval (fst (@epochs Toy.X a st)) = calls is_model_eval st /\
  calls is_scheduler_step (fst (@epochs Toy.X a st)) = calls is_scheduler_step st /\
  fs (fst (@epochs Toy.X a st)) = fs st.
Proof.
  intros a st.
  assert (H1 : args_step_interval a = 0) by reflexivity.
  assert (H2 : 0 < args_max_epoch_num a) by reflexivity.
  assert (H3 : @train_loader Toy.X 0 <> []) by discriminate.
  split; [exact H1 | split; [exact H2 | split; [exact H3 | ]]].
  exact (@zero_step_interval_raises Toy.X a st H1 H2 H3).
Defined.

(** X12, on the steady world with two batches per pass and
    [step_interval = 100]. *)
Lemma no_validation_when_interval_exceeds_pass_witness :
  let a := Cases.args_with "/m" 3 2 100 in
  let st := fst (@startup Toy.X (@initial Toy.X a (Toy.stale_dir Toy.X))) in
  (forall e, Z.of_nat (length (@train_loader Toy.X e)) < args_step_interval a) /\
  0 < args_max_epoch_num a /\
  args_min_epoch_num a <= args_max_epoch_num a /\
  snd (@epochs Toy.X a st) = Break /\
  fs (fst (@epochs Toy.X a st)) = fs st /\
  curr_best_accuracy (fst (@epochs Toy.X a st)) = F64.zero /\
  calls is_model_eval (fst (@epochs Toy.X a st)) = calls is_model_eval st /\
  calls is_torch_save (fst (@epochs Toy.X a st)) = calls is_torch_save st /\
  calls is_scheduler_step (fst (@epochs Toy.X a st)) =
    (Z.to_nat (Z.max 1 (args_min_epoch_num a)) + calls is_scheduler_step st)%nat.
Proof.
  intros a st.
  assert (H1 : forall e, Z.of_nat (length (@train_loader Toy.X e)) < args_step_interval a)
    by (intros e; reflexivity).
  assert (H2 : 0 < args_max_epoch_num a) by reflexivity.
  assert (H3 : args_min_epoch_num a <= args_max_epoch_num a) by (vm_compute; discriminate).
  split; [exact H1 | split; [exact H2 | split; [exact H3 | ]]].
  exact (@no_validation_when_interval_exceeds_pass Toy.X a st H1 H2 H3).
Defined.

Lemma pair_fst_snd {A B} (p : A * B) (b : B) : snd p = b -> p = (fst p, b).
Proof. destruct p as [x y]. simpl. intros ->. reflexivity. Qed.

(** X13, on five batches with [step_interval = 2]: five optimizer steps and
    two validation rounds. *)
Lemma validation_rounds_per_epoch_witness :
  let a := Cases.args_with "/m" 3 2 2 in
  let st := fst (@startup Cases.X5 (@initial Cases.X5 a (Toy.stale_dir Cases.X5))) in
  let st' := fst (@training_pass Cases.X5 a 0 st) in
  args_step_interval a <> 0 /\
  @training_pass Cases.X5 a 0 st = (st', Normal) /\
  calls is_optimizer_step st' = 5%nat /\
  Z.of_nat (calls is_model_eval st') = 2.
Proof.
  intros a st st'.
  assert (H1 : args_step_interval a <> 0) by discriminate.
  assert (Hs : snd (@training_pass Cases.X5 a 0 st) = Normal)
    by (vm_compute; reflexivity).
  assert (H2 : @training_pass Cases.X5 a 0 st = (st', Normal))
    by exact (pair_fst_snd (@training_pass Cases.X5 a 0 st) Normal Hs).
  split; [exact H1 | split; [exact H2 | ]].
  destruct (@validation_rounds_per_epoch Cases.X5 a 0 st st' H1 H2) as [Ho He].
  split; [rewrite Ho | rewrite He]; vm_compute; reflexivity.
Defined.

(** X10, on the first round of a run, with a mean of 0.5. *)
Lemma first_improvements_are_saved_witness :
  let st := fst (@startup Toy.X (@initial Toy.X (Toy.args "/m") (Toy.stale_dir Toy.X))) in
  let mean := F64.decimal 5 10 in
  curr_best_accuracy st = F64.zero /\
  F64.leb F64.zero (curr_best_accuracy_epoch st) = true /\
  F64.gtb mean (curr_best_accuracy_epoch st) = true /\
  calls is_torch_save (fst (checkpoint 0 mean st)) = S (calls is_torch_save st) /\
  curr_best_accuracy_epoch (fst (checkpoint 0 mean st)) = mean /\
  (snd (checkpoint 0 mean st) = Normal ->
   fs (fst (checkpoint 0 mean st)) !! resolve (checkpoint_path (model_dir st) 0) =
   Some (File (StateDict (model st)))).
Proof.
  intros st mean.
  assert (H1 : curr_best_accuracy st = F64.zero) by reflexivity.
  assert (H2 : F64.leb F64.zero (curr_best_accuracy_epoch st) = true)
    by (vm_compute; reflexivity).
  assert (H3 : F64.gtb mean (curr_best_accuracy_epoch st) = true)
    by (vm_compute; reflexivity).
  split; [exact H1 | split; [exact H2 | split; [exact H3 | ]]].
  exact (@first_improvements_are_saved Toy.X 0 mean st H1 H2 H3).
Defined.

(** X15, with a best of 0.5 for the run, 0.6 for the epoch so far, and a
    mean of 0.7. *)
Lemma improvement_within_band_is_saved_witness :
  let st := set_curr_best_accuracy_epoch (F64.decimal 6 10)
              (set_curr_best_accuracy (F64.decimal 5 10)
                 (fst (@startup Toy.X
                         (@initial Toy.X (Toy.args "/m") (Toy.stale_dir Toy.X))))) in
  let mean := F64.decimal 7 10 in
  F64.gtb (curr_best_accuracy_epoch st)
          (F64.sub (curr_best_accuracy st) (F64.decimal 1 1000)) = true /\
  F64.gtb mean (curr_best_accuracy_epoch st) = true /\
  calls is_torch_save (fst (checkpoint 1 mean st)) = S (calls is_torch_save st) /\
  curr_best_accuracy_epoch (fst (checkpoint 1 mean st)) = mean /\
  (snd (checkpoint 1 mean st) = Normal ->
   fs (fst (checkpoint 1 mean st)) !! resolve (checkpoint_path (model_dir st) 1) =
   Some (File (StateDict (model st)))).
Proof.
  intros st mean.
  assert (H1 : F64.gtb (curr_best_accuracy_epoch st)
                 (F64.sub (curr_best_accuracy st) (F64.decimal 1 1000)) = true)
    by (vm_compute; reflexivity).
  assert (H2 : F64.gtb mean (curr_best_accuracy_epoch st) = true)
    by (vm_compute; reflexivity).
  split; [exact H1 | split; [exact H2 | ]].
  exact (@improvement_within_band_is_saved Toy.X 1 mean st H1 H2).
Defined.

(** X14, on the first epoch of the steady run. *)
Lemma epoch_end_takes_best_witness :
  let a := Toy.args "/m" in
  let st := set_curr_best_accuracy F64.zero
              (fst (@startup Toy.X (@initial Toy.X a (Toy.stale_dir Toy.X)))) in
  let st' := fst (@epoch_body Toy.X a 0 st) in
  F64.is_nan (curr_best_accuracy st) = false /\
  (snd (@epoch_body Toy.X a 0 st) = Normal \/ snd (@epoch_body Toy.X a 0 st) = Break) /\
  curr_best_accuracy st' =
    best_of (curr_best_accuracy_epoch st') (curr_best_accuracy st) /\
  F64.leb (curr_best_accuracy_epoch st') (curr_best_accuracy st') = true /\
  F64.leb (curr_best_accuracy st) (curr_best_accuracy st') = true.
Proof.
  intros a st st'.
  assert (H1 : F64.is_nan (curr_best_accuracy st) = false) by reflexivity.
  assert (H2 : snd (@epoch_body Toy.X a 0 st) = Normal \/
               snd (@epoch_body Toy.X a 0 st) = Break)
    by (left; vm_compute; reflexivity).
  split; [exact H1 | split; [exact H2 | ]].
  exact (@epoch_end_takes_best Toy.X a 0 st H1 H2).
Defined.
